(** * internal/fsext/fileutil.go: gitignore-aware glob search

    A shallow embedding of [SkipHidden], [NewFastGlobWalker], [shouldSkip]
    and [GlobWithDoubleStar], together with models of the library calls
    they make (path/filepath, strings, sort, fastwalk, doublestar,
    go-gitignore), and the properties of the search proved over it. *)

From stdpp Require Import base numbers option list gmap strings sorting.
From Stdlib Require Import Ascii String ZArith Lia.

Local Open Scope string_scope.
Local Open Scope list_scope.
Local Open Scope Z_scope.

(** ** Go's [strings] package, as far as the file uses it *)
Module Strings.

(** [strings.HasPrefix(s, prefix)] *)
Definition HasPrefix (s prefix : string) : bool := String.prefix prefix s.

(** [strings.SplitSeq(s, sep)] with a separator of one byte: the pieces
    between the separators, in order; an empty [s] gives one empty piece. *)
Fixpoint Split (s : string) (sep : ascii) : list string :=
  match s with
  | EmptyString => [EmptyString]
  | String c rest =>
      if Ascii.eqb c sep then EmptyString :: Split rest sep
      else match Split rest sep with
           | h :: t => String c h :: t
           | [] => [String c EmptyString]
           end
  end.

(** [utf8.DecodeRuneInString(s)], the width of the rune only: the number
    of bytes of the first rune of [s]; a byte that starts no valid encoding
    is a rune of one byte. *)
Definition inRange (lo hi : N) (c : ascii) : bool :=
  ((lo <=? N_of_ascii c) && (N_of_ascii c <=? hi))%N.

Definition runeWidth (s : string) : nat :=
  match s with
  | EmptyString => 0%nat
  | String b0 rest =>
      if inRange 0 127 b0 then 1%nat
      else
        let '(size, lo, hi) :=
          if inRange 194 223 b0 then (2, 128, 191)%N
          else if inRange 224 224 b0 then (3, 160, 191)%N
          else if inRange 237 237 b0 then (3, 128, 159)%N
          else if inRange 225 239 b0 then (3, 128, 191)%N
          else if inRange 240 240 b0 then (4, 144, 191)%N
          else if inRange 241 243 b0 then (4, 128, 191)%N
          else if inRange 244 244 b0 then (4, 128, 143)%N
          else (1, 0, 0)%N in
        match size, rest with
        | 2%N, String b1 _ => if inRange lo hi b1 then 2%nat else 1%nat
        | 3%N, String b1 (String b2 _) =>
            if inRange lo hi b1 && inRange 128 191 b2 then 3%nat else 1%nat
        | 4%N, String b1 (String b2 (String b3 _)) =>
            if inRange lo hi b1 && inRange 128 191 b2 && inRange 128 191 b3
            then 4%nat else 1%nat
        | _, _ => 1%nat
        end
  end.

(** [strings.Replace(s, "", new, -1)] past its first insertion: [new]
    after every rune of [s]. *)
Fixpoint afterRunes (fuel : nat) (s new : string) : string :=
  match fuel with
  | O => EmptyString
  | S fuel' =>
      match s with
      | EmptyString => EmptyString
      | _ =>
          let w := runeWidth s in
          String.substring 0 w s +:+ new
            +:+ afterRunes fuel' (String.substring w (String.length s - w) s) new
      end
  end.

(** [strings.Replace(s, old, new, -1)] for a non-empty [old]: the
    occurrences of [old] are found from the left, each search starting
    behind the occurrence before; [skip] counts the bytes of an occurrence
    still to pass over. *)
Fixpoint replaceFrom (s old new : string) (skip : nat) : string :=
  match s with
  | EmptyString => EmptyString
  | String c s' =>
      match skip with
      | S k => replaceFrom s' old new k
      | O =>
          if String.prefix old s
          then new +:+ replaceFrom s' old new (String.length old - 1)
          else String c (replaceFrom s' old new 0)
      end
  end.

(** [strings.ReplaceAll(s, old, new)] *)
Definition ReplaceAll (s old new : string) : string :=
  if String.eqb old new then s
  else
    match old with
    | EmptyString => new +:+ afterRunes (String.length s) s new
    | String _ _ => replaceFrom s old new 0
    end.

End Strings.

(** ** Go's [path/filepath] on a Unix system *)
Module Filepath.

Definition Separator : ascii := "/"%char.

Definition IsPathSeparator (c : ascii) : bool := Ascii.eqb c Separator.

Fixpoint hasSeparator (path : string) : bool :=
  match path with
  | EmptyString => false
  | String c rest => IsPathSeparator c || hasSeparator rest
  end.

(** [for len(path) > 0 && os.IsPathSeparator(path[len(path)-1])
      { path = path[0 : len(path)-1] }] *)
Fixpoint stripTrailingSeparators (path : string) : string :=
  match path with
  | EmptyString => EmptyString
  | String c rest =>
      match stripTrailingSeparators rest with
      | EmptyString =>
          if IsPathSeparator c then EmptyString else String c EmptyString
      | r => String c r
      end
  end.

(** [i := len(path) - 1; for i >= 0 && !os.IsPathSeparator(path[i]) { i-- };
    if i >= 0 { path = path[i+1:] }] *)
Fixpoint lastElement (path : string) : string :=
  match path with
  | EmptyString => EmptyString
  | String c rest =>
      if hasSeparator rest then lastElement rest
      else if IsPathSeparator c then rest else path
  end.

(** [filepath.Base]: the last element of the path, trailing separators
    removed first; "." for the empty path, "/" for a path of separators. *)
Definition Base (path : string) : string :=
  if String.eqb path "" then "."
  else
    let path := stripTrailingSeparators path in
    let path := lastElement path in
    if String.eqb path "" then String Separator EmptyString else path.

End Filepath.

(** ** Go's [sort.Slice]

    The pattern-defeating quicksort of package sort (zsortfunc.go), on a
    slice held as a list and read and written by index. [less] is the
    order on two elements that the caller's closure computes from their
    indices. *)
Module Sort.

Section Pdqsort.
Context {A : Type} (less : A → A → bool).

(** [data.Less(i, j)] *)
Definition Less (data : list A) (i j : nat) : bool :=
  match data !! i, data !! j with
  | Some x, Some y => less x y
  | _, _ => false
  end.

(** [data.Swap(i, j)] *)
Definition Swap (data : list A) (i j : nat) : list A :=
  match data !! i, data !! j with
  | Some x, Some y => <[i:=y]> (<[j:=x]> data)
  | _, _ => data
  end.

(** [for j := i; j > a && data.Less(j, j-1); j-- { data.Swap(j, j-1) }] *)
Fixpoint insertDown (data : list A) (a j : nat) : list A :=
  match j with
  | O => data
  | S j' =>
      if (a <? j)%nat && Less data j j'
      then insertDown (Swap data j j') a j'
      else data
  end.

(** [insertionSort_func(data, a, b)] *)
Definition insertionSort (data : list A) (a b : nat) : list A :=
  foldl (λ d i, insertDown d a i) data (seq (a + 1) (b - (a + 1))).

(** [siftDown_func(data, lo, hi, first)] *)
Fixpoint siftDown (fuel : nat) (data : list A) (root hi first : nat)
    : list A :=
  match fuel with
  | O => data
  | S fuel' =>
      let child := (2 * root + 1)%nat in
      if (hi <=? child)%nat then data
      else
        let child :=
          if (child + 1 <? hi)%nat
             && Less data (first + child) (first + child + 1)
          then (child + 1)%nat else child in
        if negb (Less data (first + root) (first + child)) then data
        else siftDown fuel' (Swap data (first + root) (first + child))
               child hi first
  end.

(** [heapSort_func(data, a, b)] *)
Definition heapSort (data : list A) (a b : nat) : list A :=
  let first := a in
  let lo := 0%nat in
  let hi := (b - a)%nat in
  let data :=
    foldl (λ d i, siftDown hi d i hi first) data
          (rev (seq 0 ((hi - 1) / 2 + 1))) in
  foldl (λ d i, siftDown hi (Swap d first (first + i)) lo i first) data
        (rev (seq 0 hi)).

(** [reverseRange_func(data, a, b)] *)
Fixpoint reverseLoop (fuel : nat) (data : list A) (i j : nat) : list A :=
  match fuel with
  | O => data
  | S fuel' =>
      if (i <? j)%nat
      then reverseLoop fuel' (Swap data i j) (i + 1) (j - 1)
      else data
  end.

Definition reverseRange (data : list A) (a b : nat) : list A :=
  match b with
  | O => data
  | S b' => reverseLoop (b - a) data a b'
  end.

(** [order2_func]: the two indices, the one of the smaller element
    first, and the number of swaps so far. *)
Definition order2 (data : list A) (a b swaps : nat) : nat * nat * nat :=
  if Less data b a then (b, a, S swaps) else (a, b, swaps).

(** [median_func] *)
Definition median (data : list A) (a b c swaps : nat) : nat * nat :=
  let '(a, b, swaps) := order2 data a b swaps in
  let '(b, c, swaps) := order2 data b c swaps in
  let '(a, b, swaps) := order2 data a b swaps in
  (b, swaps).

(** [medianAdjacent_func] *)
Definition medianAdjacent (data : list A) (a swaps : nat) : nat * nat :=
  median data (a - 1) a (a + 1) swaps.

Inductive sortedHint := unknownHint | increasingHint | decreasingHint.

(** [choosePivot_func(data, a, b)] *)
Definition choosePivot (data : list A) (a b : nat) : nat * sortedHint :=
  let shortestNinther := 50%nat in
  let maxSwaps := (4 * 3)%nat in
  let l := (b - a)%nat in
  let swaps := 0%nat in
  let i := (a + l / 4 * 1)%nat in
  let j := (a + l / 4 * 2)%nat in
  let k := (a + l / 4 * 3)%nat in
  let '(j, swaps) :=
    if (8 <=? l)%nat then
      let '(i, j, k, swaps) :=
        if (shortestNinther <=? l)%nat then
          let '(i, swaps) := medianAdjacent data i swaps in
          let '(j, swaps) := medianAdjacent data j swaps in
          let '(k, swaps) := medianAdjacent data k swaps in
          (i, j, k, swaps)
        else (i, j, k, swaps) in
      median data i j k swaps
    else (j, swaps) in
  if (swaps =? 0)%nat then (j, increasingHint)
  else if (swaps =? maxSwaps)%nat then (j, decreasingHint)
  else (j, unknownHint).

(** [for i <= j && data.Less(i, a) { i++ }] *)
Fixpoint scanUp (fuel : nat) (data : list A) (a i j : nat) : nat :=
  match fuel with
  | O => i
  | S fuel' =>
      if (i <=? j)%nat && Less data i a
      then scanUp fuel' data a (i + 1) j else i
  end.

(** [for i <= j && !data.Less(j, a) { j-- }] *)
Fixpoint scanDown (fuel : nat) (data : list A) (a i j : nat) : nat :=
  match fuel with
  | O => j
  | S fuel' =>
      if (i <=? j)%nat && negb (Less data j a)
      then scanDown fuel' data a i (j - 1) else j
  end.

(** The second loop of [partition_func]. *)
Fixpoint partitionLoop (fuel : nat) (data : list A) (a i j : nat)
    : list A * nat :=
  match fuel with
  | O => (data, j)
  | S fuel' =>
      let i := scanUp (S j) data a i j in
      let j := scanDown (S j) data a i j in
      if (j <? i)%nat then (data, j)
      else partitionLoop fuel' (Swap data i j) a (i + 1) (j - 1)
  end.

(** [partition_func(data, a, b, pivot)]: the slice, the new place of
    the pivot, and whether the slice was partitioned already. *)
Definition partition (data : list A) (a b pivot : nat)
    : list A * nat * bool :=
  let data := Swap data a pivot in
  let i := (a + 1)%nat in
  let j := (b - 1)%nat in
  let i := scanUp (S j) data a i j in
  let j := scanDown (S j) data a i j in
  if (j <? i)%nat then (Swap data j a, j, true)
  else
    let data := Swap data i j in
    let '(data, j) := partitionLoop (S j) data a (i + 1) (j - 1) in
    (Swap data j a, j, false).

(** [for i <= j && !data.Less(a, i) { i++ }] *)
Fixpoint scanUpEqual (fuel : nat) (data : list A) (a i j : nat) : nat :=
  match fuel with
  | O => i
  | S fuel' =>
      if (i <=? j)%nat && negb (Less data a i)
      then scanUpEqual fuel' data a (i + 1) j else i
  end.

(** [for i <= j && data.Less(a, j) { j-- }] *)
Fixpoint scanDownEqual (fuel : nat) (data : list A) (a i j : nat) : nat :=
  match fuel with
  | O => j
  | S fuel' =>
      if (i <=? j)%nat && Less data a j
      then scanDownEqual fuel' data a i (j - 1) else j
  end.

Fixpoint partitionEqualLoop (fuel : nat) (data : list A) (a i j : nat)
    : list A * nat :=
  match fuel with
  | O => (data, i)
  | S fuel' =>
      let i := scanUpEqual (S j) data a i j in
      let j := scanDownEqual (S j) data a i j in
      if (j <? i)%nat then (data, i)
      else partitionEqualLoop fuel' (Swap data i j) a (i + 1) (j - 1)
  end.

(** [partitionEqual_func(data, a, b, pivot)] *)
Definition partitionEqual (data : list A) (a b pivot : nat)
    : list A * nat :=
  let data := Swap data a pivot in
  partitionEqualLoop b data a (a + 1) (b - 1).

(** [for j := i - 1; j >= 1; j-- { if !data.Less(j, j-1) { break };
    data.Swap(j, j-1) }] *)
Fixpoint shiftLeft (data : list A) (j : nat) : list A :=
  match j with
  | O => data
  | S j' =>
      if negb (Less data j j') then data
      else shiftLeft (Swap data j j') j'
  end.

(** [for j := i + 1; j < b; j++ { if !data.Less(j, j-1) { break };
    data.Swap(j, j-1) }] *)
Fixpoint shiftRight (fuel : nat) (data : list A) (j b : nat) : list A :=
  match fuel with
  | O => data
  | S fuel' =>
      if (j <? b)%nat then
        if negb (Less data j (j - 1)) then data
        else shiftRight fuel' (Swap data j (j - 1)) (j + 1) b
      else data
  end.

(** [for i < b && !data.Less(i, i-1) { i++ }] *)
Fixpoint skipSorted (fuel : nat) (data : list A) (i b : nat) : nat :=
  match fuel with
  | O => i
  | S fuel' =>
      if (i <? b)%nat && negb (Less data i (i - 1))
      then skipSorted fuel' data (i + 1) b else i
  end.

(** [partialInsertionSort_func(data, a, b)]: [steps] counts the
    iterations left of its outer loop. *)
Fixpoint partialInsertionLoop (steps : nat) (data : list A) (a b i : nat)
    : list A * bool :=
  match steps with
  | O => (data, false)
  | S steps' =>
      let i := skipSorted b data i b in
      if (i =? b)%nat then (data, true)
      else if (b - a <? 50)%nat then (data, false)
      else
        let data := Swap data i (i - 1) in
        let data :=
          if (2 <=? i - a)%nat then shiftLeft data (i - 1) else data in
        let data :=
          if (2 <=? b - i)%nat then shiftRight b data (i + 1) b
          else data in
        partialInsertionLoop steps' data a b i
  end.

Definition partialInsertionSort (data : list A) (a b : nat)
    : list A * bool :=
  partialInsertionLoop 5 data a b (a + 1).

(** [bits.Len(uint(n))] *)
Definition bitsLen (n : nat) : nat :=
  match n with O => O | _ => S (Nat.log2 n) end.

(** [Next()] of the [xorshift] generator, on 64 bits *)
Definition xorshiftNext (r : Z) : Z :=
  let r := Z.lxor r (Z.shiftl r 13 mod 2 ^ 64) in
  let r := Z.lxor r (Z.shiftr r 7) in
  Z.lxor r (Z.shiftl r 17 mod 2 ^ 64).

(** [breakPatterns_func(data, a, b)] *)
Definition breakPatterns (data : list A) (a b : nat) : list A :=
  let length := (b - a)%nat in
  if (8 <=? length)%nat then
    let random := Z.of_nat length in
    let modulus := 2 ^ Z.of_nat (bitsLen length) in
    let idx := (a + length / 4 * 2 - 1)%nat in
    let step (st : list A * Z) (i : nat) : list A * Z :=
      let '(data, random) := st in
      let random := xorshiftNext random in
      let other := Z.to_nat (Z.land random (modulus - 1)) in
      let other :=
        if (length <=? other)%nat then (other - length)%nat else other in
      (Swap data (idx - 1 + i) (a + other), random) in
    (foldl step (data, random) (seq 0 3)).1
  else data.

(** [pdqsort_func(data, a, b, limit)]. [wasBalanced], [wasPartitioned]
    are the two variables of its loop; [fuel] bounds the iterations
    of the loop and the depth of the recursive calls together. *)
Fixpoint pdqsort (fuel : nat) (data : list A) (a b limit : nat)
    (wasBalanced wasPartitioned : bool) : list A :=
  match fuel with
  | O => data
  | S fuel' =>
      let length := (b - a)%nat in
      if (length <=? 12)%nat then insertionSort data a b
      else if (limit =? 0)%nat then heapSort data a b
      else
        let '(data, limit) :=
          if negb wasBalanced
          then (breakPatterns data a b, (limit - 1)%nat)
          else (data, limit) in
        let '(pivot, hint) := choosePivot data a b in
        let '(data, pivot, hint) :=
          match hint with
          | decreasingHint =>
              (reverseRange data a b, (b - 1 - (pivot - a))%nat,
               increasingHint)
          | _ => (data, pivot, hint)
          end in
        let '(data, sorted) :=
          match wasBalanced && wasPartitioned, hint with
          | true, increasingHint => partialInsertionSort data a b
          | _, _ => (data, false)
          end in
        if sorted then data
        else if (0 <? a)%nat && negb (Less data (a - 1) pivot) then
          let '(data, mid) := partitionEqual data a b pivot in
          pdqsort fuel' data mid b limit wasBalanced wasPartitioned
        else
          let '(data, mid, alreadyPartitioned) :=
            partition data a b pivot in
          let wasPartitioned := alreadyPartitioned in
          let leftLen := (mid - a)%nat in
          let rightLen := (b - mid)%nat in
          let balanceThreshold := (length / 8)%nat in
          if (leftLen <? rightLen)%nat then
            let wasBalanced := (balanceThreshold <=? leftLen)%nat in
            let data := pdqsort fuel' data a mid limit true true in
            pdqsort fuel' data (mid + 1) b limit wasBalanced wasPartitioned
          else
            let wasBalanced := (balanceThreshold <=? rightLen)%nat in
            let data := pdqsort fuel' data (mid + 1) b limit true true in
            pdqsort fuel' data a mid limit wasBalanced wasPartitioned
  end.

(** [sort.Slice(x, less)] *)
Definition Slice (x : list A) : list A :=
  let length := List.length x in
  let limit := bitsLen length in
  pdqsort (S length) x 0 length limit true true.

End Pdqsort.

End Sort.

(** ** fileutil.go *)

(** The literal [map[string]bool] of [SkipHidden]. *)
Definition commonIgnoredDirs : gmap string bool :=
  <[".crush" := true]> (
  <["node_modules" := true]> (
  <["vendor" := true]> (
  <["dist" := true]> (
  <["build" := true]> (
  <["target" := true]> (
  <[".git" := true]> (
  <[".idea" := true]> (
  <[".vscode" := true]> (
  <["__pycache__" := true]> (
  <["bin" := true]> (
  <["obj" := true]> (
  <["out" := true]> (
  <["coverage" := true]> (
  <["tmp" := true]> (
  <["temp" := true]> (
  <["logs" := true]> (
  <["generated" := true]> (
  <["bower_components" := true]> (
  <["jspm_packages" := true]> ∅))))))))))))))))))).

(** Indexing a Go [map[string]bool]: a missing key reads as [false]. *)
Definition index (m : gmap string bool) (k : string) : bool :=
  default false (m !! k).

Definition SkipHidden (path : string) : bool :=
  let base := Filepath.Base path in
  if negb (String.eqb base ".") && Strings.HasPrefix base "." then true
  else
    let parts := Strings.Split path Filepath.Separator in
    existsb (index commonIgnoredDirs) parts.

(** ** Values shared by the walker and the search *)

(** Go [error] values that can occur. [filepath.SkipDir] and
    [filepath.SkipAll] are error values like any other; [nil] is [None]. *)
Inductive error :=
| SkipDir
| SkipAll
| ErrStat (path : string)
| ErrReadDir (path : string)
| Errorf (msg : string) (wrapped : error).

(** A directory entry as the walk hands it to its callback, with what the
    file system answers below it: [info] is the result of [d.Info()]
    ([None]: it fails), the modification time in it as an integer;
    [entries] is the result of reading the directory ([None]: it fails). *)
#[warnings="-register-all"] Inductive DirEntry :=
| File (name : string) (info : option Z)
| Dir (name : string) (info : option Z) (entries : option (list DirEntry)).

Definition IsDir (d : DirEntry) : bool :=
  match d with File _ _ => false | Dir _ _ _ => true end.

Definition Info (d : DirEntry) : option Z :=
  match d with File _ i => i | Dir _ i _ => i end.

Definition Name (d : DirEntry) : string :=
  match d with File n _ => n | Dir n _ _ => n end.

Record FileInfo := { Path : string; ModTime : Z }.

(** [t.After(u)] on modification times. *)
Definition After (t u : Z) : bool := u <? t.

(** Go's [int], 64 bits: the value of an arithmetic result after wrap-around. *)
Definition int_wrap (z : Z) : Z := (z + 2 ^ 63) mod 2 ^ 64 - 2 ^ 63.

(** ** The walk provider (fastwalk)

    The walk keeps a list of directories still to read. A worker takes one,
    calls the callback on it, reads it, calls the callback on every entry
    that is not a directory and queues the directories. Which pending
    directory is taken next is up to the scheduling of the workers: it is
    the [sched] argument, one choice per directory taken. [SkipDir]
    answered for a directory leaves it unread. An error answered for an
    entry of a listing ends that listing, and the walk reports it to the
    callback like an error of reading the directory, in a second call on
    the directory; the walk goes on as that call answers. [SkipAll] has no
    case of its own there: answered for an entry, it ends the listing of
    that one directory, and the directories already queued are still
    read. *)
Module Fastwalk.

Definition WalkDirFunc (S : Type) : Type :=
  string → DirEntry → option error → S → S * option error.

Definition item : Type := string * DirEntry.

Fixpoint endsWithSeparator (path : string) : bool :=
  match path with
  | EmptyString => false
  | String c EmptyString => Filepath.IsPathSeparator c
  | String _ rest => endsWithSeparator rest
  end.

(** The path of an entry [base] of the directory [dir]: the two joined
    by a separator, unless [dir] ends with one. *)
Definition joinPaths (dir base : string) : string :=
  if endsWithSeparator dir then dir +:+ base
  else dir +:+ String Filepath.Separator base.

(** The root as the callback sees it: trailing separators removed. *)
Definition cleanRootPath (root : string) : string :=
  match Filepath.stripTrailingSeparators root with
  | EmptyString =>
      match root with
      | EmptyString => EmptyString
      | String c _ => String c EmptyString
      end
  | r => r
  end.

Section Walk.
Context {S : Type} (fn : WalkDirFunc S).

(** The entries of one directory, in the order the walk yields them:
    directories are queued, the callback runs on the others. *)
Fixpoint visitEntries (dir : string) (entries : list DirEntry) (s : S)
    (queued : list item) : S * list item * option error :=
  match entries with
  | [] => (s, queued, None)
  | e :: rest =>
      match e with
      | Dir name _ _ =>
          visitEntries dir rest s (queued ++ [(joinPaths dir name, e)])
      | File name _ =>
          let '(s', r) := fn (joinPaths dir name) e None s in
          match r with
          | None => visitEntries dir rest s' queued
          | Some err => (s', queued, Some err)
          end
      end
  end.

(** One unit of work: the callback on the entry itself, then, for a
    directory, its entries. A directory that cannot be read is reported
    to the callback a second time, with the error; so is a listing that an
    entry's callback ended with an error, with that error ([SkipDir]
    apart, which only ends the listing). The directories queued before
    the listing ended stay queued. *)
Definition walkDir (it : item) (s : S) : S * list item * option error :=
  let '(path, d) := it in
  let '(s1, r) := fn path d None s in
  match r with
  | Some err => (s1, [], Some err)
  | None =>
      match d with
      | File _ _ => (s1, [], None)
      | Dir _ _ None =>
          let '(s2, r2) := fn path d (Some (ErrReadDir path)) s1 in
          (s2, [], r2)
      | Dir _ _ (Some entries) =>
          let '(s2, queued, r2) := visitEntries path entries s1 [] in
          match r2 with
          | None | Some SkipDir => (s2, queued, None)
          | Some err =>
              let '(s3, r3) := fn path d (Some err) s2 in
              (s3, queued, r3)
          end
      end
  end.

(** The [k]-th pending item (modulo their number) and the others. *)
Definition pick (k : nat) (todo : list item) : option (item * list item) :=
  let i := (k mod List.length todo)%nat in
  match todo !! i with
  | Some it => Some (it, delete i todo)
  | None => None
  end.

(** The walk from the pending directories [todo]. What a unit of work
    answers for the item itself, in its first call or in the call that
    reports an error, decides how the walk goes on: [SkipDir] leaves the
    directory, [SkipAll] ends the walk without an error, as
    [fs.WalkDirFunc] documents, any other error ends it and is returned.
    (The callback of the search answers [SkipAll] for files only, so for
    the item itself only when the root is no directory.) *)
Fixpoint run (fuel : nat) (sched : list nat) (todo : list item) (s : S)
    : S * option error :=
  match fuel with
  | O => (s, None)
  | Datatypes.S fuel' =>
      match pick (hd 0%nat sched) todo with
      | None => (s, None)
      | Some (it, todo') =>
          let '(s', new, r) := walkDir it s in
          match r with
          | None | Some SkipDir => run fuel' (tl sched) (todo' ++ new) s'
          | Some SkipAll => (s', None)
          | Some err => (s', Some err)
          end
      end
  end.

End Walk.

(** The number of directory reads a tree can ask for (every entry counts
    itself), which bounds the steps of [run]. *)
Fixpoint weight (d : DirEntry) : nat :=
  match d with
  | File _ _ => 1
  | Dir _ _ None => 1
  | Dir _ _ (Some entries) =>
      Datatypes.S ((fix sum (l : list DirEntry) : nat :=
         match l with [] => 0 | e :: l' => weight e + sum l' end) entries)
  end%nat.

Definition weights (todo : list item) : nat :=
  foldr (λ it acc, weight it.2 + acc)%nat 0%nat todo.

(** [fastwalk.Walk(&conf, root, fn)] given what [os.Stat(root)] answers:
    a root that cannot be stat'ed is returned as the error, with the
    callback never called. *)
Definition Walk {S : Type} (stat : string → option DirEntry)
    (sched : list nat) (root : string) (fn : WalkDirFunc S) (s : S)
    : S * option error :=
  match stat root with
  | None => (s, Some (ErrStat root))
  | Some d => run fn (weight d) sched [(cleanRootPath root, d)] s
  end.

End Fastwalk.

(** ** The libraries the search calls, as parameters

    [GitIgnore], [MatchesPath]: github.com/sabhiram/go-gitignore;
    [Rel], [Join]: path/filepath ([Rel] is [None] when it returns an error);
    [Match]: doublestar.Match ([None] when it returns [ErrBadPattern]);
    [Slice]: sort.Slice on a slice of [FileInfo], given the order its
    [less] closure computes from two elements. *)
Class Libraries := {
  GitIgnore : Type;
  MatchesPath : GitIgnore → string → bool;
  Rel : string → string → option string;
  Join : string → string → string;
  Match : string → string → option bool;
  Slice : (FileInfo → FileInfo → bool) → list FileInfo → list FileInfo
}.

(** The file system a call observes: [os.Stat] (with the tree below the
    path, for the walk) and [ignore.CompileIgnoreFile]. *)
Record FileSystem `{Libraries} := {
  Stat : string → option DirEntry;
  CompileIgnoreFile : string → option GitIgnore
}.

Section Fsext.
Context `{L : Libraries}.

Record FastGlobWalker := {
  gitignore : option GitIgnore;
  rootPath : string
}.

Definition NewFastGlobWalker (fs : FileSystem) (searchPath : string)
    : FastGlobWalker :=
  let gitignorePath := Join searchPath ".gitignore" in
  match Stat fs gitignorePath with
  | Some _ =>
      match CompileIgnoreFile fs gitignorePath with
      | Some gi => {| gitignore := Some gi; rootPath := searchPath |}
      | None => {| gitignore := None; rootPath := searchPath |}
      end
  | None => {| gitignore := None; rootPath := searchPath |}
  end.

Definition shouldSkip (path rootPath : string) (gitignore : option GitIgnore)
    : bool :=
  if SkipHidden path then true
  else
    match gitignore with
    | Some gi =>
        match Rel rootPath path with
        | Some relPath => if MatchesPath gi relPath then true else false
        | None => false
        end
    | None => false
    end.

(** The closure handed to [fastwalk.Walk]; [matches] is the slice it
    appends to, every use of which is under the mutex. *)
Definition walkFn (pattern searchPath : string) (limit : Z)
    (rootPath : string) (gitignore : option GitIgnore)
    : Fastwalk.WalkDirFunc (list FileInfo) :=
  λ path d err matches,
    match err with
    | Some _ => (matches, None)
    | None =>
        if IsDir d then
          if shouldSkip path rootPath gitignore
          then (matches, Some SkipDir)
          else (matches, None)
        else if shouldSkip path rootPath gitignore then (matches, None)
        else
          let relPath :=
            match Rel searchPath path with
            | Some r => r
            | None => path
            end in
          match Match pattern relPath with
          | None | Some false => (matches, None)
          | Some true =>
              match Info d with
              | None => (matches, None)
              | Some modTime =>
                  let matches :=
                    matches ++ [{| Path := path; ModTime := modTime |}] in
                  if (0 <? limit)
                     && (int_wrap (limit * 2) <=? Z.of_nat (List.length matches))
                  then (matches, Some SkipAll)
                  else (matches, None)
              end
          end
    end.

(** [less] of the [sort.Slice] call. *)
Definition less (a b : FileInfo) : bool := After (ModTime a) (ModTime b).

(** The candidates the walk of a call records ([matches] when
    [fastwalk.Walk] returns), and the error of the walk. *)
Definition collect (fs : FileSystem) (sched : list nat)
    (pattern searchPath : string) (limit : Z)
    : list FileInfo * option error :=
  let walker := NewFastGlobWalker fs searchPath in
  Fastwalk.Walk (Stat fs) sched searchPath
    (walkFn pattern searchPath limit (rootPath walker) (gitignore walker)) [].

(** What follows the walk: sort, cut at [limit], keep the paths. *)
Definition rank (limit : Z) (walked : list FileInfo * option error)
    : list string * bool * option error :=
  let '(matches, err) := walked in
  match err with
  | Some e => ([], false, Some (Errorf "fastwalk error" e))
  | None =>
      let matches := Slice less matches in
      let '(matches, truncated) :=
        if (0 <? limit) && (limit <? Z.of_nat (List.length matches))
        then (take (Z.to_nat limit) matches, true)
        else (matches, false) in
      (Path <$> matches, truncated, None)
  end.

Definition GlobWithDoubleStar (fs : FileSystem) (sched : list nat)
    (pattern searchPath : string) (limit : Z)
    : list string * bool * option error :=
  rank limit (collect fs sched pattern searchPath limit).

(** [os.UserHomeDir()] on Linux, given the value of $HOME: an error
    ([None]) when it is empty. *)
Definition UserHomeDir (HOME : string) : option string :=
  if String.eqb HOME "" then None else Some HOME.

Definition PrettyPath (HOME : string) (path : string) : string :=
  match UserHomeDir HOME with
  | Some homeDir => Strings.ReplaceAll path homeDir "~"
  | None => path
  end.

(** [string(b)] for a byte [b]: the UTF-8 encoding of the code point [b],
    one byte below 128 and two from there on. *)
Definition stringOfByte (b : ascii) : string :=
  let n := N_of_ascii b in
  if (n <? 128)%N then String b EmptyString
  else String (ascii_of_N (192 + n / 64))
         (String (ascii_of_N (128 + n mod 64)) EmptyString).

(** The loop of [DirTrim], from index [i] down; [None] is the run-time
    panic of an index out of range. *)
Fixpoint dirTrimLoop (dirs : list string) (lim : Z) (i : nat) (out : string)
    : option string :=
  match i with
  | O => Some out
  | S i' =>
      let out := String Filepath.Separator EmptyString +:+ out in
      match dirs !! i with
      | None => None
      | Some dir =>
          if Z.of_nat i =? Z.of_nat (List.length dirs) - 1 then
            dirTrimLoop dirs lim i' dir
          else if Z.of_nat (List.length dirs) - lim <=? Z.of_nat i then
            match dir with
            | String b _ => dirTrimLoop dirs lim i' (stringOfByte b +:+ out)
            | EmptyString => None
            end
          else Some ("..." +:+ out)
      end
  end.

Definition DirTrim (pwd : string) (lim : Z) : option string :=
  let dirs := Strings.Split pwd Filepath.Separator in
  if (Z.of_nat (List.length dirs) - 1 <? lim) || (lim <=? 0) then Some pwd
  else
    match dirTrimLoop dirs lim (List.length dirs - 1) EmptyString with
    | Some out => Some (Join "~" out)
    | None => None
    end.

End Fsext.

(** ** What the statements below are written with *)

(** The contract of [sort.Slice] for a [less] that is a strict weak order:
    the slice is rearranged, and afterwards no element is [less] than one
    that stands before it. The order of elements neither of which is
    [less] than the other is left open. *)
Record StrictWeakOrder {A : Type} (lt : A → A → bool) : Prop := {
  swo_irrefl : ∀ x, lt x x = false;
  swo_trans : ∀ x y z, lt x y = true → lt y z = true → lt x z = true;
  swo_incomp : ∀ x y z, lt x y = false → lt y z = false → lt x z = false
}.

Class SliceSorts `{Libraries} : Prop := {
  Slice_Permutation : ∀ lt l, Slice lt l ≡ₚ l;
  Slice_StronglySorted : ∀ lt l,
    StrictWeakOrder lt → StronglySorted (λ x y, lt y x = false) (Slice lt l)
}.

(** The final segment of [path] starts with a dot and is not ".". *)
Definition hidden (path : string) : Prop :=
  Filepath.Base path ≠ "." ∧ Strings.HasPrefix (Filepath.Base path) "." = true.

(** Some segment of [path] is one of the conventionally ignored names. *)
Definition conventionallyIgnored (path : string) : Prop :=
  ∃ part, part ∈ Strings.Split path Filepath.Separator
          ∧ commonIgnoredDirs !! part = Some true.

(** The first [limit] elements when [0 < limit] and there are more. *)
Definition cut {A : Type} (limit : Z) (l : list A) : list A :=
  if (0 <? limit) && (limit <? Z.of_nat (List.length l))
  then take (Z.to_nat limit) l else l.

(** [p] stands before [q] in [l]. *)
Definition before {A : Type} (l : list A) (p q : A) : Prop :=
  ∃ i j, (i < j)%nat ∧ l !! i = Some p ∧ l !! j = Some q.

(** Newest first: no candidate is older than one that follows it. *)
Definition newestFirst (ranked : list FileInfo) : Prop :=
  StronglySorted (λ x y, ModTime y ≤ ModTime x) ranked.

(** Candidates modified at the same time are returned in the order in
    which the walk recorded them. *)
Definition tiesKeepDiscoveryOrder (collected : list FileInfo)
    (paths : list string) : Prop :=
  ∀ x y, x ∈ collected → y ∈ collected → ModTime x = ModTime y →
         before paths (Path x) (Path y) →
         before (Path <$> collected) (Path x) (Path y).

Section Specs.
Context `{L : Libraries}.

(** Whether the callback answers [SkipAll] after recording [matches]. *)
Definition stops (limit : Z) (matches : list FileInfo) : bool :=
  (0 <? limit) && (int_wrap (limit * 2) <=? Z.of_nat (List.length matches)).

(** What the callback records for an entry that is not a directory. *)
Definition candidate (pattern searchPath rootPath : string)
    (gitignore : option GitIgnore) (path : string) (d : DirEntry)
    : option FileInfo :=
  if shouldSkip path rootPath gitignore then None
  else
    match Match pattern (default path (Rel searchPath path)) with
    | Some true =>
        match Info d with
        | Some modTime => Some {| Path := path; ModTime := modTime |}
        | None => None
        end
    | _ => None
    end.

(** The qualifying candidates of the tree [d] found at [path]: the files
    that are not skipped, lie under no skipped directory, match the
    pattern and whose [Info] succeeds, in the order of the listings. *)
Fixpoint qualifying (pattern searchPath rootPath : string)
    (gitignore : option GitIgnore) (path : string) (d : DirEntry)
    : list FileInfo :=
  match d with
  | File _ _ =>
      option_list (candidate pattern searchPath rootPath gitignore path d)
  | Dir _ _ entries =>
      if shouldSkip path rootPath gitignore then []
      else
        match entries with
        | None => []
        | Some es =>
            flat_map
              (λ e, qualifying pattern searchPath rootPath gitignore
                      (Fastwalk.joinPaths path (Name e)) e) es
        end
  end.

(** The directories among the entries of the directory [dir], as the walk
    queues them. *)
Definition subdirs (dir : string) (entries : list DirEntry)
    : list Fastwalk.item :=
  flat_map
    (λ e, if IsDir e then [(Fastwalk.joinPaths dir (Name e), e)] else [])
    entries.

(** The candidates that are recorded when every listing ends with the
    first candidate it comes upon: of a directory that is read, the
    candidates so recorded below the directories listed before its first
    candidate, and that candidate. *)
Fixpoint firsts (pattern searchPath rootPath : string)
    (gitignore : option GitIgnore) (path : string) (d : DirEntry)
    : list FileInfo :=
  match d with
  | File _ _ =>
      option_list (candidate pattern searchPath rootPath gitignore path d)
  | Dir _ _ entries =>
      if shouldSkip path rootPath gitignore then []
      else
        match entries with
        | None => []
        | Some es =>
            (fix go (l : list DirEntry) : list FileInfo :=
               match l with
               | [] => []
               | e :: l' =>
                   if IsDir e then
                     firsts pattern searchPath rootPath gitignore
                       (Fastwalk.joinPaths path (Name e)) e ++ go l'
                   else
                     match candidate pattern searchPath rootPath gitignore
                             (Fastwalk.joinPaths path (Name e)) e with
                     | Some x => [x]
                     | None => go l'
                     end
               end) es
        end
  end.

Definition firstsList (pattern searchPath rootPath : string)
    (gitignore : option GitIgnore) (dir : string) (es : list DirEntry)
    : list FileInfo :=
  (fix go (l : list DirEntry) : list FileInfo :=
     match l with
     | [] => []
     | e :: l' =>
         if IsDir e then
           firsts pattern searchPath rootPath gitignore
             (Fastwalk.joinPaths dir (Name e)) e ++ go l'
         else
           match candidate pattern searchPath rootPath gitignore
                   (Fastwalk.joinPaths dir (Name e)) e with
           | Some x => [x]
           | None => go l'
           end
     end) es.

(** The tree with every entry that cannot be accessed left out: a file
    whose [Info] fails is dropped, a directory that cannot be read is
    kept as a directory with nothing in it. *)
Fixpoint withoutFailures (d : DirEntry) : DirEntry :=
  match d with
  | File _ _ => d
  | Dir name info None => Dir name info (Some [])
  | Dir name info (Some es) =>
      Dir name info
        (Some ((fix go (l : list DirEntry) : list DirEntry :=
                  match l with
                  | [] => []
                  | File _ None :: l' => go l'
                  | e :: l' => withoutFailures e :: go l'
                  end) es))
  end.

Definition withoutFailuresList (es : list DirEntry) : list DirEntry :=
  (fix go (l : list DirEntry) : list DirEntry :=
     match l with
     | [] => []
     | File _ None :: l' => go l'
     | e :: l' => withoutFailures e :: go l'
     end) es.

Definition withoutFailuresItem (it : Fastwalk.item) : Fastwalk.item :=
  (it.1, withoutFailures it.2).

Definition withoutFailuresFS (fs : FileSystem) : FileSystem :=
  {| Stat := λ p, withoutFailures <$> Stat fs p;
     CompileIgnoreFile := CompileIgnoreFile fs |}.

(** The qualifying candidates of a call. *)
Definition qualifyingOf (fs : FileSystem) (pattern searchPath : string)
    : list FileInfo :=
  let walker := NewFastGlobWalker fs searchPath in
  match Stat fs searchPath with
  | Some d =>
      qualifying pattern searchPath (rootPath walker) (gitignore walker)
        (Fastwalk.cleanRootPath searchPath) d
  | None => []
  end.

(** The candidates of a call that are recorded when every listing ends
    with its first candidate. *)
Definition firstsOf (fs : FileSystem) (pattern searchPath : string)
    : list FileInfo :=
  let walker := NewFastGlobWalker fs searchPath in
  match Stat fs searchPath with
  | Some d =>
      firsts pattern searchPath (rootPath walker) (gitignore walker)
        (Fastwalk.cleanRootPath searchPath) d
  | None => []
  end.

End Specs.


(** ** What the further statements are written with *)

(** The walk of the tree [d] found at [path] calls the callback on the
    entry [e'] at [path']: on [d] itself, and below a directory that can be
    read and is not skipped on what the walk of its entries comes to. *)
Inductive Visits `{L : Libraries} (rootPath : string)
    (gitignore : option GitIgnore)
    : string → DirEntry → string → DirEntry → Prop :=
| Visits_here path d : Visits rootPath gitignore path d path d
| Visits_below path name info es e path' e' :
    shouldSkip path rootPath gitignore = false →
    e ∈ es →
    Visits rootPath gitignore (Fastwalk.joinPaths path (Name e)) e path' e' →
    Visits rootPath gitignore path (Dir name info (Some es)) path' e'.

(** [p] is the path of an entry that a call visits, that is no directory,
    is not skipped, matches the pattern and has its [Info] read. *)
Definition passes `{L : Libraries} (fs : FileSystem)
    (pattern searchPath : string) (p : string) : Prop :=
  let walker := NewFastGlobWalker fs searchPath in
  ∃ d e modTime,
    Stat fs searchPath = Some d
    ∧ Visits (rootPath walker) (gitignore walker)
        (Fastwalk.cleanRootPath searchPath) d p e
    ∧ IsDir e = false
    ∧ shouldSkip p (rootPath walker) (gitignore walker) = false
    ∧ Match pattern (default p (Rel searchPath p)) = Some true
    ∧ Info e = Some modTime.

(** The name of an entry starts with a dot and is not "."; the name is one
    of the conventionally ignored ones. *)
Definition hiddenName (name : string) : Prop :=
  name ≠ "." ∧ Strings.HasPrefix name "." = true.

Definition ignoredName (name : string) : Prop :=
  commonIgnoredDirs !! name = Some true.

(** The number of separators in a path. *)
Fixpoint separators (path : string) : nat :=
  match path with
  | EmptyString => 0
  | String c rest =>
      if Filepath.IsPathSeparator c then S (separators rest)
      else separators rest
  end.

(** The first bytes of the segments [dirs], each as [string(b)] and
    followed by a separator; [None] when a segment is empty. *)
Fixpoint initials (dirs : list string) : option string :=
  match dirs with
  | [] => Some EmptyString
  | EmptyString :: _ => None
  | String b _ :: rest =>
      match initials rest with
      | Some s =>
          Some (stringOfByte b +:+ String Filepath.Separator EmptyString +:+ s)
      | None => None
      end
  end.

(** [old] occurs in [s]. *)
Definition occurs (old s : string) : Prop :=
  ∃ before after, s = before +:+ old +:+ after.

(** ** Library instances and file systems for running the search

    The theorems hold for every behaviour of the libraries within the
    contracts assumed. To run the search on an input the libraries are
    filled in here: [filepath.Rel] and [filepath.Join] as they are on
    Unix paths, [doublestar.Match] and the ignore file on the part of
    their domain the examples use. *)
Module Run.

(** doublestar.Match on patterns made of literal bytes, "?" and "*"
    (neither of which matches a separator), and on patterns with a class
    that is never closed, which are malformed. *)
Fixpoint glob (pattern : string) : string → bool :=
  match pattern with
  | EmptyString => λ name, String.eqb name ""
  | String p pattern' =>
      if Ascii.eqb p "*" then
        fix star (name : string) : bool :=
          glob pattern' name
          || match name with
             | String c name' =>
                 negb (Filepath.IsPathSeparator c) && star name'
             | EmptyString => false
             end
      else if Ascii.eqb p "?" then
        λ name,
          match name with
          | String c name' =>
              negb (Filepath.IsPathSeparator c) && glob pattern' name'
          | EmptyString => false
          end
      else
        λ name,
          match name with
          | String c name' => Ascii.eqb p c && glob pattern' name'
          | EmptyString => false
          end
  end.

Fixpoint contains (c : ascii) (s : string) : bool :=
  match s with
  | EmptyString => false
  | String c' s' => Ascii.eqb c c' || contains c s'
  end.

Definition globMatch (pattern name : string) : option bool :=
  if contains "[" pattern && negb (contains "]" pattern) then None
  else Some (glob pattern name).

(** filepath.Clean on Unix paths: the elements of the path without the
    empty ones and ".", every ".." taken away with the element before it;
    a rooted path keeps its root (and no ".." behind it), and an empty
    result is ".". *)
Definition isRooted (path : string) : bool :=
  match path with
  | String c _ => Filepath.IsPathSeparator c
  | EmptyString => false
  end.

Fixpoint cleanElements (rooted : bool) (kept elems : list string)
    : list string :=
  match elems with
  | [] => rev kept
  | e :: elems' =>
      if String.eqb e "" || String.eqb e "." then
        cleanElements rooted kept elems'
      else if String.eqb e ".." then
        match kept with
        | k :: kept' =>
            if String.eqb k ".." then cleanElements rooted (e :: kept) elems'
            else cleanElements rooted kept' elems'
        | [] =>
            if rooted then cleanElements rooted [] elems'
            else cleanElements rooted [e] elems'
        end
      else cleanElements rooted (e :: kept) elems'
  end.

Fixpoint joinElements (elems : list string) : string :=
  match elems with
  | [] => ""
  | [e] => e
  | e :: rest => e +:+ "/" +:+ joinElements rest
  end.

Definition clean (path : string) : string :=
  let elems :=
    cleanElements (isRooted path) []
      (Strings.Split path Filepath.Separator) in
  if isRooted path then "/" +:+ joinElements elems
  else match elems with
       | [] => "."
       | _ => joinElements elems
       end.

(** The elements of a clean path. *)
Definition elements (cleaned : string) : list string :=
  List.filter (λ e, negb (String.eqb e "" || String.eqb e "."))
    (Strings.Split cleaned Filepath.Separator).

Fixpoint dropCommon (bs ts : list string) : list string * list string :=
  match bs, ts with
  | b :: bs', t :: ts' =>
      if String.eqb b t then dropCommon bs' ts' else (bs, ts)
  | _, _ => (bs, ts)
  end.

(** filepath.Rel on Unix paths: [None] when it returns an error, for a
    rooted path against one that is not, and for a base that goes up
    where the target does not. *)
Definition rel (basepath targpath : string) : option string :=
  let base := clean basepath in
  let targ := clean targpath in
  if String.eqb targ base then Some "."
  else if negb (Bool.eqb (isRooted base) (isRooted targ)) then None
  else
    let '(bs, ts) := dropCommon (elements base) (elements targ) in
    match bs with
    | [] => Some (joinElements ts)
    | b :: _ =>
        if String.eqb b ".." then None
        else Some (joinElements (replicate (List.length bs) ".." ++ ts))
    end.

(** filepath.Join of two elements on Unix paths. *)
Definition join (a b : string) : string :=
  match a, b with
  | EmptyString, EmptyString => ""
  | EmptyString, _ => clean b
  | _, EmptyString => clean a
  | _, _ => clean (a +:+ "/" +:+ b)
  end.

(** A compiled ignore file whose lines are plain names: a path matches
    when one of its segments is one of the names. *)
Definition matchesName (lines : list string) (relPath : string) : bool :=
  existsb (λ part, existsb (String.eqb part) lines)
          (Strings.Split relPath Filepath.Separator).

(** The libraries with Go's own [sort.Slice]. *)
Definition Go : Libraries :=
  {| GitIgnore := list string;
     MatchesPath := matchesName;
     Rel := rel;
     Join := join;
     Match := globMatch;
     Slice := @Sort.Slice FileInfo |}.

(** [x] may stand before [y] in a slice sorted by [lt]. *)
Definition mayPrecede {A : Type} (lt : A → A → bool) : relation A :=
  λ x y, lt y x = false.

#[global] Instance mayPrecede_dec {A : Type} (lt : A → A → bool) (x y : A) :
  Decision (mayPrecede lt x y) := bool_eq_dec (lt y x) false.

(** The same with a merge sort in the place of [sort.Slice]. *)
Definition Merge : Libraries :=
  {| GitIgnore := list string;
     MatchesPath := matchesName;
     Rel := rel;
     Join := join;
     Match := globMatch;
     Slice := λ lt, merge_sort (mayPrecede lt) |}.

(** A file system with one tree, at [root], and no ignore file. *)
Definition only `{Libraries} (root : string) (d : DirEntry) : FileSystem :=
  {| Stat := λ p, if String.eqb p root then Some d else None;
     CompileIgnoreFile := λ _, None |}.

(** proj/: a.txt (modified at 100), b.txt (at 110), .git/c.txt. *)
Definition proj : DirEntry :=
  Dir "proj" (Some 0) (Some [
    File "a.txt" (Some 100);
    File "b.txt" (Some 110);
    Dir ".git" (Some 0) (Some [File "c.txt" (Some 120)])]).

(** many/: f00 .. f11 modified at 0, then f12 modified at 1. *)
Definition many : DirEntry :=
  Dir "many" (Some 0) (Some [
    File "f00" (Some 0); File "f01" (Some 0); File "f02" (Some 0);
    File "f03" (Some 0); File "f04" (Some 0); File "f05" (Some 0);
    File "f06" (Some 0); File "f07" (Some 0); File "f08" (Some 0);
    File "f09" (Some 0); File "f10" (Some 0); File "f11" (Some 0);
    File "f12" (Some 1)]).

(** The files of many/ as candidates, in the order of the listing. *)
Definition manyCandidates : list FileInfo :=
  (λ n, {| Path := "many/f" +:+ n; ModTime := 0 |})
    <$> ["00"; "01"; "02"; "03"; "04"; "05"; "06"; "07"; "08"; "09"; "10";
         "11"].

(** tree/: a file whose [Info] fails, three directories with one file
    each, and a directory that cannot be read. *)
Definition tree : DirEntry :=
  Dir "tree" (Some 0) (Some [
    File "gone.txt" None;
    Dir "d1" (Some 0) (Some [File "x.txt" (Some 1)]);
    Dir "d2" (Some 0) (Some [File "y.txt" (Some 2)]);
    Dir "d3" (Some 0) (Some [File "z.txt" (Some 3)]);
    Dir "locked" (Some 0) None]).

(** two/: da/ with a1.txt (modified at 1) and a2.txt (at 10), db/ with
    b1.txt (at 2) and b2.txt (at 20). *)
Definition two : DirEntry :=
  Dir "two" (Some 0) (Some [
    Dir "da" (Some 0) (Some [File "a1.txt" (Some 1); File "a2.txt" (Some 10)]);
    Dir "db" (Some 0) (Some [File "b1.txt" (Some 2); File "b2.txt" (Some 20)])]).

(** closed/: a directory that can be stat'ed and cannot be read. *)
Definition closed : DirEntry := Dir "closed" (Some 0) None.

End Run.
(** ** Path predicates *)

Lemma index_true (m : gmap string bool) (k : string) :
  index m k = true ↔ m !! k = Some true.
Proof.
  unfold index. destruct (m !! k) as [[]|]; simpl; split; congruence.
Qed.

Lemma SkipHidden_spec (path : string) :
  SkipHidden path = true ↔ hidden path ∨ conventionallyIgnored path.
Proof.
  unfold SkipHidden, hidden, conventionallyIgnored.
  destruct (String.eqb_spec (Filepath.Base path) ".") as [Hb|Hb]; simpl.
  - rewrite existsb_exists. split.
    + intros (x & Hin & Hx). right. exists x. split.
      * by apply list_elem_of_In.
      * by apply index_true.
    + intros [[Hne _]|(x & Hin & Hx)]; [done|].
      exists x. split; [by apply list_elem_of_In | by apply index_true].
  - destruct (Strings.HasPrefix (Filepath.Base path) ".") eqn:Hp.
    + split; [intros _; by left | done].
    + rewrite existsb_exists. split.
      * intros (x & Hin & Hx). right. exists x. split.
        -- by apply list_elem_of_In.
        -- by apply index_true.
      * intros [[_ ?]|(x & Hin & Hx)]; [done|].
        exists x. split; [by apply list_elem_of_In | by apply index_true].
Qed.

(** C5, as the code has it. [SkipHidden] is the one predicate of the file
    for hidden paths: it answers true for every path whose final segment is
    not "." and starts with a dot, and beyond those exactly for the paths
    with a conventionally ignored segment; for every other path it answers
    false. *)
Theorem C5_SkipHidden_hidden_or_ignored (path : string) :
  (hidden path → SkipHidden path = true)
  ∧ (SkipHidden path = true ↔ hidden path ∨ conventionallyIgnored path)
  ∧ (¬ hidden path → ¬ conventionallyIgnored path → SkipHidden path = false).
Proof.
  split; [|split].
  - intros H. apply SkipHidden_spec. by left.
  - apply SkipHidden_spec.
  - intros H1 H2. destruct (SkipHidden path) eqn:E; [|done].
    apply SkipHidden_spec in E as [?|?]; done.
Qed.

Lemma C5_witness :
  hidden "proj/.env" ∧ SkipHidden "proj/.env" = true.
Proof.
  assert (H : hidden "proj/.env") by (split; [discriminate | reflexivity]).
  split; [exact H|].
  exact (proj1 (C5_SkipHidden_hidden_or_ignored "proj/.env") H).
Defined.

(** C5 as stated fails: the final segment of "vendor/main.go" does not
    start with a dot, and [SkipHidden] answers true. *)
Lemma C5_counterexample :
  ¬ (∀ path, ¬ hidden path → SkipHidden path = false).
Proof.
  intros H. specialize (H "vendor/main.go").
  assert (Hn : ¬ hidden "vendor/main.go").
  { intros [_ Hp]. vm_compute in Hp. discriminate. }
  apply H in Hn. vm_compute in Hn. discriminate.
Qed.

Example SkipHidden_git : SkipHidden "proj/.git" = true.
Proof. vm_compute. reflexivity. Qed.

Example SkipHidden_vendor : SkipHidden "vendor/a.go" = true.
Proof. vm_compute. reflexivity. Qed.

Example SkipHidden_plain : SkipHidden "proj/a.txt" = false.
Proof. vm_compute. reflexivity. Qed.


(** ** The callback *)

Section Callback.
Context `{L : Libraries}.
Context (pattern searchPath : string) (limit : Z) (rootPath : string)
        (gitignore : option GitIgnore).

Local Abbreviation fn := (walkFn pattern searchPath limit rootPath gitignore).
Local Abbreviation cand := (candidate pattern searchPath rootPath gitignore).

Lemma walkFn_err path d e s : fn path d (Some e) s = (s, None).
Proof. reflexivity. Qed.

Lemma walkFn_dir path d s :
  IsDir d = true →
  fn path d None s
  = (s, if shouldSkip path rootPath gitignore then Some SkipDir else None).
Proof.
  intros Hd. unfold walkFn. rewrite Hd.
  by destruct (shouldSkip path rootPath gitignore).
Qed.

Lemma walkFn_file path d s :
  IsDir d = false →
  fn path d None s
  = match cand path d with
    | None => (s, None)
    | Some fi =>
        (s ++ [fi], if stops limit (s ++ [fi]) then Some SkipAll else None)
    end.
Proof.
  intros Hd. unfold walkFn, candidate, stops. rewrite Hd.
  destruct (shouldSkip path rootPath gitignore); [done|].
  destruct (Rel searchPath path); simpl;
    (destruct (Match pattern _) as [[]|]; [|done..]);
    (destruct (Info d); [|done]);
    by destruct (_ && _).
Qed.

End Callback.

(** Once the callback answers [SkipAll] it does so with every candidate
    that follows. *)
Lemma stops_mono limit (l l' : list FileInfo) :
  stops limit l = true → (List.length l ≤ List.length l')%nat →
  stops limit l' = true.
Proof.
  unfold stops. intros H Hl. apply andb_true_iff in H as [H1 H2].
  rewrite H1. cbn [andb]. apply Z.leb_le in H2. apply Z.leb_le. lia.
Qed.

Lemma stops_unlimited limit (l : list FileInfo) :
  limit ≤ 0 → stops limit l = false.
Proof. intros Hl. unfold stops. by rewrite (proj2 (Z.ltb_ge 0 limit)). Qed.

(** ** The work list *)

Lemma weight_pos d : (1 ≤ Fastwalk.weight d)%nat.
Proof. destruct d as [|? ? []]; simpl; lia. Qed.

Lemma weight_Dir name info es :
  Fastwalk.weight (Dir name info (Some es))
  = S (foldr (λ e acc, Fastwalk.weight e + acc)%nat 0%nat es).
Proof.
  reflexivity.
Qed.

Lemma weights_app a b :
  Fastwalk.weights (a ++ b) = (Fastwalk.weights a + Fastwalk.weights b)%nat.
Proof.
  unfold Fastwalk.weights. induction a as [|x a IH]; simpl; [done|].
  rewrite IH. lia.
Qed.

Lemma weights_nil_inv todo : Fastwalk.weights todo = 0%nat → todo = [].
Proof.
  destruct todo as [|[p d] todo]; [done|].
  unfold Fastwalk.weights. simpl. pose proof (weight_pos d). lia.
Qed.

Lemma weights_Permutation a b :
  a ≡ₚ b → Fastwalk.weights a = Fastwalk.weights b.
Proof.
  unfold Fastwalk.weights.
  induction 1; simpl; lia.
Qed.

Lemma weights_sublist a b :
  a `sublist_of` b → (Fastwalk.weights a ≤ Fastwalk.weights b)%nat.
Proof.
  unfold Fastwalk.weights.
  induction 1; simpl; lia.
Qed.

Lemma pick_Some k (todo : list Fastwalk.item) it todo' :
  Fastwalk.pick k todo = Some (it, todo') → todo ≡ₚ it :: todo'.
Proof.
  unfold Fastwalk.pick. destruct (todo !! _) eqn:E; [|done].
  intros [= <- <-]. by apply delete_Permutation.
Qed.

Lemma pick_None k (todo : list Fastwalk.item) :
  Fastwalk.pick k todo = None → todo = [].
Proof.
  unfold Fastwalk.pick. destruct (todo !! _) eqn:E; [done|]. intros _.
  destruct todo as [|x todo]; [done|].
  apply lookup_ge_None in E.
  pose proof (Nat.mod_upper_bound k (List.length (x :: todo))) as Hb.
  simpl in *. lia.
Qed.

Lemma pick_weights k (todo : list Fastwalk.item) it todo' :
  Fastwalk.pick k todo = Some (it, todo') →
  Fastwalk.weights todo = (Fastwalk.weight it.2 + Fastwalk.weights todo')%nat.
Proof. intros Hp%pick_Some%weights_Permutation. by rewrite Hp. Qed.

Lemma weights_subdirs dir es :
  (Fastwalk.weights (subdirs dir es)
   ≤ foldr (λ e acc, Fastwalk.weight e + acc) 0 es)%nat.
Proof.
  induction es as [|e es IH]; [done|].
  cbn [subdirs flat_map foldr]. fold (subdirs dir es).
  rewrite weights_app.
  destruct (IsDir e); unfold Fastwalk.weights at 1; simpl; lia.
Qed.

Lemma subdirs_cons dir e es :
  subdirs dir (e :: es)
  = (if IsDir e then [(Fastwalk.joinPaths dir (Name e), e)] else [])
    ++ subdirs dir es.
Proof. reflexivity. Qed.

Lemma subdirs_IsDir dir es it : it ∈ subdirs dir es → IsDir it.2 = true.
Proof.
  induction es as [|e es IH]; [by intros ?%elem_of_nil|].
  rewrite subdirs_cons. intros [H|H]%elem_of_app; [|by apply IH].
  destruct (IsDir e) eqn:E; [|by apply elem_of_nil in H].
  by apply list_elem_of_singleton in H as ->.
Qed.

(** Whatever the callback, a unit of work queues directories of the
    listing only, in their order, so that the work left gets less. *)
Section Queue.
Context {St : Type} (fn : Fastwalk.WalkDirFunc St).

Lemma visitEntries_queued dir es s queued :
  ∃ new, (Fastwalk.visitEntries fn dir es s queued).1.2 = queued ++ new
         ∧ new `sublist_of` subdirs dir es.
Proof.
  revert s queued. induction es as [|e es IH]; intros s queued.
  - exists []. by rewrite app_nil_r.
  - rewrite subdirs_cons. destruct e as [name info|name info sub];
      cbn [Fastwalk.visitEntries IsDir Name app].
    + destruct (fn _ _ None s) as [s' [err|]].
      * exists []. rewrite app_nil_r. split; [done|apply sublist_nil_l].
      * apply IH.
    + destruct (IH s (queued ++ [(Fastwalk.joinPaths dir name,
                                  Dir name info sub)])) as (new & -> & Hn).
      exists ((Fastwalk.joinPaths dir name, Dir name info sub) :: new).
      split; [by rewrite <- app_assoc|by constructor].
Qed.

Lemma walkDir_queued it s :
  (S (Fastwalk.weights (Fastwalk.walkDir fn it s).1.2)
   ≤ Fastwalk.weight it.2)%nat
  ∧ ∀ it', it' ∈ (Fastwalk.walkDir fn it s).1.2 → IsDir it'.2 = true.
Proof.
  destruct it as [path d]. unfold Fastwalk.walkDir. cbn [snd].
  pose proof (weight_pos d) as Hd.
  assert (∀ (x : St) (r : option error),
            (S (Fastwalk.weights (x, @nil Fastwalk.item, r).1.2)
                         ≤ Fastwalk.weight d)%nat
                        ∧ ∀ it', it' ∈ (x, @nil Fastwalk.item, r).1.2 →
                                 IsDir it'.2 = true) as Hnil.
  { intros x r. split; [done|]. by intros it' ?%elem_of_nil. }
  destruct (fn path d None s) as [s1 [err|]]; [apply Hnil|].
  destruct d as [name info|name info [es|]]; [apply Hnil| |].
  - destruct (visitEntries_queued path es s1 []) as (new & Hq & Hn).
    destruct (Fastwalk.visitEntries fn path es s1 []) as [[s2 queued] r2].
    cbn [fst snd app] in Hq. subst queued.
    assert ((S (Fastwalk.weights new)
             ≤ Fastwalk.weight (Dir name info (Some es)))%nat
            ∧ ∀ it', it' ∈ new → IsDir it'.2 = true) as Hnew.
    { split.
      - rewrite weight_Dir. pose proof (weights_sublist _ _ Hn).
        pose proof (weights_subdirs path es). lia.
      - intros it' Hi. apply (subdirs_IsDir path es).
        by eapply elem_of_sublist. }
    destruct r2 as [[]|]; try done;
      by destruct (fn path _ (Some _) s2) as [s3 r3].
  - destruct (fn path _ (Some _) s1) as [s2 r2]. apply Hnil.
Qed.

Lemma run_fuel fuel1 fuel2 sched todo s :
  (Fastwalk.weights todo ≤ fuel1)%nat →
  (Fastwalk.weights todo ≤ fuel2)%nat →
  Fastwalk.run fn fuel1 sched todo s = Fastwalk.run fn fuel2 sched todo s.
Proof.
  revert fuel2 sched todo s.
  induction fuel1 as [|fuel1 IH]; intros fuel2 sched todo s H1 H2.
  - assert (todo = []) as -> by (apply weights_nil_inv; lia).
    by destruct fuel2.
  - destruct fuel2 as [|fuel2].
    + assert (todo = []) as -> by (apply weights_nil_inv; lia). done.
    + cbn [Fastwalk.run].
      destruct (Fastwalk.pick _ todo) as [[it todo']|] eqn:Hp; [|done].
      apply pick_weights in Hp.
      pose proof (proj1 (walkDir_queued it s)) as Hq.
      destruct (Fastwalk.walkDir fn it s) as [[s' new] r]. cbn [fst snd] in Hq.
      destruct r as [[]|]; try done; apply IH; rewrite weights_app; lia.
Qed.

End Queue.

(** ** The walk under the callback of the search *)

Section Walk.
Context `{L : Libraries}.
Context (pattern searchPath : string) (limit : Z) (rootPath : string)
        (gitignore : option GitIgnore).

Local Abbreviation fn := (walkFn pattern searchPath limit rootPath gitignore).
Local Abbreviation cand := (candidate pattern searchPath rootPath gitignore).
Local Abbreviation q :=
  (λ it : Fastwalk.item,
     qualifying pattern searchPath rootPath gitignore it.1 it.2).
Local Abbreviation below :=
  (λ dir e, qualifying pattern searchPath rootPath gitignore
              (Fastwalk.joinPaths dir (Name e)) e).

(** A listing: what is recorded and what is queued is part of what
    qualifies in and below the listing, and all of it unless the callback
    has answered [SkipAll]. *)
Lemma visitEntries_walkFn dir es s queued :
  ∃ f new r,
    Fastwalk.visitEntries fn dir es s queued = (s ++ f, queued ++ new, r)
    ∧ f ++ flat_map q new ⊆+ flat_map (below dir) es
    ∧ (r = None ∧ f ++ flat_map q new ≡ₚ flat_map (below dir) es
       ∨ r = Some SkipAll ∧ stops limit (s ++ f) = true).
Proof.
  revert s queued. induction es as [|e es IH]; intros s queued.
  - exists [], [], None. rewrite !app_nil_r. split; [done|]. split; [done|].
    by left.
  - destruct e as [name info|name info sub]; cbn [Fastwalk.visitEntries].
    + rewrite walkFn_file by done. cbn [flat_map Name qualifying].
      destruct (cand _ _) as [x|]; cbn [option_list option_rect app].
      * destruct (stops limit (s ++ [x])) eqn:Hs.
        -- exists [x], [], (Some SkipAll). rewrite app_nil_r.
           split; [done|]. split; [|by right].
           cbn [flat_map app]. apply submseteq_skip, submseteq_nil_l.
        -- destruct (IH (s ++ [x]) queued) as (f & new & r & -> & Hsub & Hr).
           exists (x :: f), new, r. rewrite <- app_assoc. split; [done|].
           split; [by apply submseteq_skip|].
           destruct Hr as [[-> HP]|[-> Hst]].
           ++ left. split; [done|]. cbn [app]. by rewrite HP.
           ++ right. split; [done|]. by rewrite <- app_assoc in Hst.
      * apply IH.
    + destruct (IH s (queued ++ [(Fastwalk.joinPaths dir name,
                                  Dir name info sub)]))
        as (f & new & r & -> & Hsub & Hr).
      exists f, ((Fastwalk.joinPaths dir name, Dir name info sub) :: new), r.
      rewrite <- app_assoc. split; [done|].
      assert (f ++ flat_map q
                      ((Fastwalk.joinPaths dir name, Dir name info sub) :: new)
              ≡ₚ below dir (Dir name info sub) ++ (f ++ flat_map q new)) as HP.
      { cbn [flat_map fst snd Name]. rewrite !app_assoc.
        apply Permutation_app_tail, Permutation_app_comm. }
      cbn [flat_map]. split.
      * rewrite HP. by apply submseteq_skips_l.
      * destruct Hr as [[-> HP']|[-> Hst]]; [left|by right].
        split; [done|]. rewrite HP. by apply Permutation_app_head.
Qed.

(** A unit of work. *)
Lemma walkDir_walkFn it s :
  ∃ f new r,
    Fastwalk.walkDir fn it s = (s ++ f, new, r)
    ∧ f ++ flat_map q new ⊆+ q it
    ∧ (f ++ flat_map q new ≡ₚ q it ∨ stops limit (s ++ f) = true)
    ∧ (r = None ∨ r = Some SkipDir
       ∨ r = Some SkipAll ∧ stops limit (s ++ f) = true).
Proof.
  destruct it as [path d]. unfold Fastwalk.walkDir. cbn [fst snd].
  destruct d as [name info|name info entries].
  - rewrite walkFn_file by done. cbn [qualifying].
    destruct (cand _ _) as [x|]; cbn [option_list option_rect].
    + destruct (stops limit (s ++ [x])) eqn:Hs.
      * exists [x], [], (Some SkipAll). repeat split; auto.
      * exists [x], [], None. repeat split; auto.
    + exists [], [], None. rewrite app_nil_r. repeat split; auto.
  - rewrite walkFn_dir by done. cbn [qualifying].
    destruct (shouldSkip path rootPath gitignore).
    { exists [], [], (Some SkipDir). rewrite app_nil_r. repeat split; auto. }
    destruct entries as [es|].
    + destruct (visitEntries_walkFn path es s [])
        as (f & new & r & -> & Hsub & Hr).
      exists f, new, None. cbn [app].
      destruct Hr as [[-> HP]|[-> Hst]]; [|rewrite walkFn_err];
        repeat split; auto.
    + rewrite walkFn_err. exists [], [], None. rewrite app_nil_r.
      repeat split; auto.
Qed.

(** The walk: what it records is part of what qualifies under the pending
    directories, and all of it unless the callback has answered
    [SkipAll]. With this callback it returns no error. *)
Lemma run_walkFn fuel sched todo s :
  ∃ r,
    Fastwalk.run fn fuel sched todo s = (s ++ r, None)
    ∧ r ⊆+ flat_map q todo
    ∧ ((Fastwalk.weights todo ≤ fuel)%nat →
         r ≡ₚ flat_map q todo ∨ stops limit (s ++ r) = true).
Proof.
  revert sched todo s. induction fuel as [|fuel IH]; intros sched todo s.
  - exists []. rewrite app_nil_r. split; [done|].
    split; [apply submseteq_nil_l|]. intros Hw.
    assert (todo = []) as -> by (apply weights_nil_inv; lia). by left.
  - cbn [Fastwalk.run].
    destruct (Fastwalk.pick _ todo) as [[it todo']|] eqn:Hp.
    + pose proof (pick_weights _ _ _ _ Hp) as Hw.
      apply pick_Some in Hp.
      pose proof (proj1 (walkDir_queued fn it s)) as Hq.
      destruct (walkDir_walkFn it s) as (f & new & r & E & Hsub & Hc & Hr).
      rewrite E in Hq |- *. cbn [fst snd] in Hq.
      assert (f ⊆+ flat_map q todo) as Hf.
      { rewrite (Permutation_flat_map q Hp). cbn [flat_map].
        apply submseteq_inserts_r. etrans; [|exact Hsub].
        apply submseteq_inserts_r. done. }
      assert (∃ r0,
                Fastwalk.run fn fuel (tl sched) (todo' ++ new) (s ++ f)
                = (s ++ r0, None)
                ∧ r0 ⊆+ flat_map q todo
                ∧ ((Fastwalk.weights todo ≤ S fuel)%nat →
                     r0 ≡ₚ flat_map q todo ∨ stops limit (s ++ r0) = true))
        as Hcont.
      { destruct (IH (tl sched) (todo' ++ new) (s ++ f))
          as (r' & Er & Hsub' & Hc').
        exists (f ++ r'). split; [by rewrite Er, app_assoc|].
        assert (f ++ flat_map q (todo' ++ new)
                ≡ₚ (f ++ flat_map q new) ++ flat_map q todo') as HP
          by (rewrite flat_map_app, <- app_assoc;
              apply Permutation_app_head, Permutation_app_comm).
        rewrite (Permutation_flat_map q Hp). cbn [flat_map]. split.
        - etrans; [apply submseteq_skips_l, Hsub'|].
          rewrite HP. by apply submseteq_skips_r.
        - intros Hfuel. rewrite app_assoc.
          destruct Hc as [Hc|Hst].
          2: { right. eapply stops_mono; [exact Hst|].
               rewrite !length_app. lia. }
          destruct Hc' as [Hc'|Hst]; [rewrite weights_app; lia| |by right].
          left. rewrite Hc', HP. by apply Permutation_app_tail. }
      destruct Hr as [->|[->|[-> Hst]]]; [exact Hcont|exact Hcont|].
      exists f. split; [done|]. split; [done|]. by right.
    + apply pick_None in Hp as ->. exists []. rewrite app_nil_r.
      split; [done|]. split; [done|]. by left.
Qed.

End Walk.

(** ** The walk of a call *)

Section Collect.
Context `{L : Libraries}.

Lemma collect_None fs sched pattern searchPath limit :
  Stat fs searchPath = None →
  collect fs sched pattern searchPath limit = ([], Some (ErrStat searchPath)).
Proof. intros H. unfold collect, Fastwalk.Walk. by rewrite H. Qed.

Lemma collect_error fs sched pattern searchPath limit :
  (collect fs sched pattern searchPath limit).2
  = match Stat fs searchPath with
    | Some _ => None
    | None => Some (ErrStat searchPath)
    end.
Proof.
  unfold collect, Fastwalk.Walk. destruct (Stat fs searchPath) as [d|]; [|done].
  by destruct (run_walkFn pattern searchPath limit
                 (rootPath (NewFastGlobWalker fs searchPath))
                 (gitignore (NewFastGlobWalker fs searchPath))
                 (Fastwalk.weight d) sched
                 [(Fastwalk.cleanRootPath searchPath, d)] []) as (r & -> & _).
Qed.

(** The recorded candidates are qualifying candidates of the tree, each
    recorded once. *)
Lemma collect_submseteq fs sched pattern searchPath limit :
  (collect fs sched pattern searchPath limit).1
  ⊆+ qualifyingOf fs pattern searchPath.
Proof.
  unfold collect, qualifyingOf, Fastwalk.Walk.
  destruct (Stat fs searchPath) as [d|]; [|done].
  destruct (run_walkFn pattern searchPath limit
              (rootPath (NewFastGlobWalker fs searchPath))
              (gitignore (NewFastGlobWalker fs searchPath))
              (Fastwalk.weight d) sched
              [(Fastwalk.cleanRootPath searchPath, d)] []) as (r & -> & Hs & _).
  cbn [flat_map fst snd app] in *. by rewrite app_nil_r in Hs.
Qed.

(** They are all of them unless the callback has answered [SkipAll]. *)
Lemma collect_complete fs sched pattern searchPath limit :
  (collect fs sched pattern searchPath limit).1
  ≡ₚ qualifyingOf fs pattern searchPath
  ∨ stops limit (collect fs sched pattern searchPath limit).1 = true.
Proof.
  unfold collect, qualifyingOf, Fastwalk.Walk.
  destruct (Stat fs searchPath) as [d|]; [|by left].
  destruct (run_walkFn pattern searchPath limit
              (rootPath (NewFastGlobWalker fs searchPath))
              (gitignore (NewFastGlobWalker fs searchPath))
              (Fastwalk.weight d) sched
              [(Fastwalk.cleanRootPath searchPath, d)] []) as (r & -> & _ & Hc).
  cbn [flat_map fst snd app] in *. rewrite app_nil_r in Hc. apply Hc.
  unfold Fastwalk.weights. simpl. lia.
Qed.

End Collect.
(** ** The first candidate of every listing *)

Section Firsts.
Context `{L : Libraries}.
Context (pattern searchPath : string) (limit : Z) (rootPath : string)
        (gitignore : option GitIgnore).

Local Abbreviation fn := (walkFn pattern searchPath limit rootPath gitignore).
Local Abbreviation cand := (candidate pattern searchPath rootPath gitignore).
Local Abbreviation q1 :=
  (λ it : Fastwalk.item,
     firsts pattern searchPath rootPath gitignore it.1 it.2).
Local Abbreviation first1 :=
  (firstsList pattern searchPath rootPath gitignore).

(** The callback answers [SkipAll] with every candidate. *)
Local Abbreviation always := (∀ l x, stops limit (l ++ [x]) = true).

Lemma firsts_Dir path name info es :
  firsts pattern searchPath rootPath gitignore path (Dir name info (Some es))
  = if shouldSkip path rootPath gitignore then [] else first1 path es.
Proof. reflexivity. Qed.

Lemma firstsList_cons dir e es :
  first1 dir (e :: es)
  = if IsDir e then
      firsts pattern searchPath rootPath gitignore
        (Fastwalk.joinPaths dir (Name e)) e ++ first1 dir es
    else
      match cand (Fastwalk.joinPaths dir (Name e)) e with
      | Some x => [x]
      | None => first1 dir es
      end.
Proof. reflexivity. Qed.

(** A listing goes as far as its first candidate at least, and no
    further when the callback answers [SkipAll] with every candidate. *)
Lemma visitEntries_firsts dir es s queued :
  ∃ f new r,
    Fastwalk.visitEntries fn dir es s queued = (s ++ f, queued ++ new, r)
    ∧ first1 dir es ⊆+ f ++ flat_map q1 new
    ∧ (always → f ++ flat_map q1 new ≡ₚ first1 dir es).
Proof.
  revert s queued. induction es as [|e es IH]; intros s queued.
  - exists [], [], None. by rewrite !app_nil_r.
  - rewrite firstsList_cons.
    destruct e as [name info|name info sub];
      cbn [Fastwalk.visitEntries IsDir Name].
    + rewrite walkFn_file by done.
      destruct (cand _ _) as [x|]; [|apply IH].
      destruct (stops limit (s ++ [x])) eqn:Hs.
      * exists [x], [], (Some SkipAll). by rewrite app_nil_r.
      * destruct (IH (s ++ [x]) queued) as (f & new & r & -> & Hsub & _).
        exists (x :: f), new, r. rewrite <- app_assoc. split; [done|]. split.
        -- cbn [app]. apply submseteq_skip, submseteq_nil_l.
        -- intros Ha. by rewrite Ha in Hs.
    + destruct (IH s (queued ++ [(Fastwalk.joinPaths dir name,
                                  Dir name info sub)]))
        as (f & new & r & -> & Hsub & Hex).
      exists f, ((Fastwalk.joinPaths dir name, Dir name info sub) :: new), r.
      rewrite <- app_assoc. split; [done|].
      assert (f ++ flat_map q1
                     ((Fastwalk.joinPaths dir name, Dir name info sub) :: new)
              ≡ₚ q1 (Fastwalk.joinPaths dir name, Dir name info sub)
                 ++ (f ++ flat_map q1 new)) as HP.
      { cbn [flat_map]. rewrite !app_assoc.
        apply Permutation_app_tail, Permutation_app_comm. }
      rewrite HP. cbn [fst snd]. split.
      * by apply submseteq_skips_l.
      * intros Ha. by rewrite (Hex Ha).
Qed.

Lemma walkDir_firsts it s :
  IsDir it.2 = true →
  ∃ f new r,
    Fastwalk.walkDir fn it s = (s ++ f, new, r)
    ∧ (r = None ∨ r = Some SkipDir)
    ∧ q1 it ⊆+ f ++ flat_map q1 new
    ∧ (always → f ++ flat_map q1 new ≡ₚ q1 it).
Proof.
  destruct it as [path d]. unfold Fastwalk.walkDir. cbn [fst snd].
  destruct d as [name info|name info [es|]]; [done|..]; intros _;
    rewrite walkFn_dir by done.
  - rewrite firsts_Dir. destruct (shouldSkip path rootPath gitignore).
    { exists [], [], (Some SkipDir). rewrite app_nil_r. auto. }
    destruct (visitEntries_firsts path es s [])
      as (f & new & r & -> & Hsub & Hex).
    exists f, new, None. cbn [app]. split; [by destruct r as [[]|]|]. auto.
  - cbn [firsts]. destruct (shouldSkip path rootPath gitignore).
    + exists [], [], (Some SkipDir). rewrite app_nil_r. auto.
    + exists [], [], None. rewrite app_nil_r. auto.
Qed.

Lemma run_firsts fuel sched todo s :
  (∀ it, it ∈ todo → IsDir it.2 = true) →
  (Fastwalk.weights todo ≤ fuel)%nat →
  ∃ r,
    Fastwalk.run fn fuel sched todo s = (s ++ r, None)
    ∧ flat_map q1 todo ⊆+ r
    ∧ (always → r ≡ₚ flat_map q1 todo).
Proof.
  revert sched todo s. induction fuel as [|fuel IH]; intros sched todo s Hd Hw.
  - assert (todo = []) as -> by (apply weights_nil_inv; lia).
    exists []. by rewrite app_nil_r.
  - cbn [Fastwalk.run].
    destruct (Fastwalk.pick _ todo) as [[it todo']|] eqn:Hp.
    2: { apply pick_None in Hp as ->. exists []. by rewrite app_nil_r. }
    pose proof (pick_weights _ _ _ _ Hp) as Hw'. apply pick_Some in Hp.
    assert (IsDir it.2 = true) as Hit
      by (apply Hd; rewrite Hp; apply list_elem_of_here).
    destruct (walkDir_queued fn it s) as [Hq Hnew].
    destruct (walkDir_firsts it s Hit) as (f & new & r & E & Hr & Hsub & Hex).
    rewrite E in Hq, Hnew |- *. cbn [fst snd] in Hq, Hnew.
    destruct (IH (tl sched) (todo' ++ new) (s ++ f))
      as (r' & Er & Hsub' & Hex').
    { intros it' [Hi|Hi]%elem_of_app; [|by apply Hnew].
      apply Hd. rewrite Hp. by apply list_elem_of_further. }
    { rewrite weights_app. lia. }
    assert (f ++ flat_map q1 (todo' ++ new)
            ≡ₚ (f ++ flat_map q1 new) ++ flat_map q1 todo') as HP
      by (rewrite flat_map_app, <- app_assoc;
          apply Permutation_app_head, Permutation_app_comm).
    exists (f ++ r').
    split; [destruct Hr as [->| ->]; by rewrite Er, app_assoc|].
    rewrite (Permutation_flat_map q1 Hp). cbn [flat_map]. split.
    + etrans; [apply submseteq_skips_r, Hsub|]. rewrite <- HP.
      by apply submseteq_skips_l.
    + intros Ha. rewrite (Hex' Ha), HP. by rewrite (Hex Ha).
Qed.

End Firsts.

Section CollectFirsts.
Context `{L : Libraries}.

Lemma stops_wrapped limit (l : list FileInfo) x :
  0 < limit → int_wrap (limit * 2) ≤ 1 → stops limit (l ++ [x]) = true.
Proof.
  intros H1 H2. unfold stops. rewrite length_app. cbn [List.length].
  apply andb_true_iff. split; [by apply Z.ltb_lt|]. apply Z.leb_le. lia.
Qed.

(** The first candidate of every listing the walk reads is recorded,
    whatever the limit; with a callback that answers [SkipAll] with every
    candidate nothing else is. *)
Lemma collect_firsts fs sched pattern searchPath limit :
  firstsOf fs pattern searchPath
  ⊆+ (collect fs sched pattern searchPath limit).1
  ∧ (0 < limit → int_wrap (limit * 2) ≤ 1 →
       (collect fs sched pattern searchPath limit).1
       ≡ₚ firstsOf fs pattern searchPath).
Proof.
  unfold collect, firstsOf, Fastwalk.Walk.
  destruct (Stat fs searchPath) as [d|]; [|done].
  set (walker := NewFastGlobWalker fs searchPath).
  destruct (IsDir d) eqn:Hd.
  - destruct (run_firsts pattern searchPath limit (rootPath walker)
                (gitignore walker) (Fastwalk.weight d) sched
                [(Fastwalk.cleanRootPath searchPath, d)] [])
      as (r & -> & Hsub & Hex).
    { by intros it ->%list_elem_of_singleton. }
    { unfold Fastwalk.weights. simpl. lia. }
    cbn [flat_map fst snd app] in *. rewrite app_nil_r in Hsub, Hex.
    split; [done|]. intros H1 H2. apply Hex. intros l x.
    by apply stops_wrapped.
  - destruct d as [name info|]; [|done].
    cbn [Fastwalk.weight Fastwalk.run hd firsts].
    unfold Fastwalk.pick. cbn [List.length]. rewrite Nat.mod_1_r.
    cbn [lookup list_lookup delete list_delete Fastwalk.walkDir].
    rewrite walkFn_file by done.
    destruct (candidate _ _ _ _ _ _) as [x|]; [|done].
    cbn [option_list option_rect app].
    by destruct (stops limit [x]).
Qed.

End CollectFirsts.
(** ** Entries that cannot be accessed *)

Lemma DirEntry_tree_ind (P : DirEntry → Prop) :
  (∀ name info, P (File name info)) →
  (∀ name info, P (Dir name info None)) →
  (∀ name info es, Forall P es → P (Dir name info (Some es))) →
  ∀ d, P d.
Proof.
  intros HF HN HD.
  fix IH 1. intros [name info|name info [es|]].
  - apply HF.
  - apply HD. induction es as [|e es IHes]; constructor; [apply IH | apply IHes].
  - apply HN.
Qed.

Lemma withoutFailures_Dir name info es :
  withoutFailures (Dir name info (Some es))
  = Dir name info (Some (withoutFailuresList es)).
Proof. reflexivity. Qed.

Lemma withoutFailuresList_cons e es :
  withoutFailuresList (e :: es)
  = match e with
    | File _ None => withoutFailuresList es
    | _ => withoutFailures e :: withoutFailuresList es
    end.
Proof. by destruct e as [? []|]. Qed.

Lemma IsDir_withoutFailures d : IsDir (withoutFailures d) = IsDir d.
Proof. by destruct d as [|? ? []]. Qed.

Lemma Info_withoutFailures d : Info (withoutFailures d) = Info d.
Proof. by destruct d as [|? ? []]. Qed.

Lemma weight_withoutFailures d :
  (Fastwalk.weight (withoutFailures d) ≤ Fastwalk.weight d)%nat.
Proof.
  induction d as [name info|name info|name info es IH] using DirEntry_tree_ind;
    [done..|].
  rewrite withoutFailures_Dir, !weight_Dir. apply le_n_S.
  induction IH as [|e es He _ IHes]; [done|].
  rewrite withoutFailuresList_cons.
  destruct e as [n [i|]|n i sub]; cbn [foldr]; lia.
Qed.

Section Failures.
Context `{L : Libraries}.
Context (pattern searchPath rootPath : string) (gitignore : option GitIgnore).

Local Abbreviation cand := (candidate pattern searchPath rootPath gitignore).

Lemma candidate_Info_None path d : Info d = None → cand path d = None.
Proof.
  intros H. unfold candidate. rewrite H.
  destruct (shouldSkip _ _ _); [done|].
  by destruct (Match _ _) as [[]|].
Qed.

Lemma pick_fmap (f : Fastwalk.item → Fastwalk.item) k
    (todo : list Fastwalk.item) :
  Fastwalk.pick k (f <$> todo)
  = prod_map f (fmap (M:=list) f) <$> Fastwalk.pick k todo.
Proof.
  unfold Fastwalk.pick. rewrite length_fmap, list_lookup_fmap.
  destruct (todo !! _) as [it|]; [|done]. simpl.
  unfold prod_map. simpl. do 2 f_equal.
  generalize (k mod List.length todo)%nat. clear. intros i. revert i.
  induction todo as [|x todo IH]; intros [|i]; simpl; [done..|].
  f_equal. apply IH.
Qed.

Context (limit : Z).

Local Abbreviation fn := (walkFn pattern searchPath limit rootPath gitignore).

Lemma walkFn_withoutFailures path d err s :
  fn path (withoutFailures d) err s = fn path d err s.
Proof. unfold walkFn. by rewrite IsDir_withoutFailures, Info_withoutFailures. Qed.

(** A listing without the files whose [Info] fails records and queues
    the same, and ends the same. *)
Lemma visitEntries_withoutFailures dir es s queued :
  Fastwalk.visitEntries fn dir (withoutFailuresList es) s
    (withoutFailuresItem <$> queued)
  = let '(s', queued', r) := Fastwalk.visitEntries fn dir es s queued in
    (s', withoutFailuresItem <$> queued', r).
Proof.
  revert s queued. induction es as [|e es IH]; intros s queued; [done|].
  rewrite withoutFailuresList_cons.
  destruct e as [n [i|]|n i sub].
  - cbn [withoutFailures Fastwalk.visitEntries].
    destruct (fn _ _ None s) as [s' [err|]]; [done|]. apply IH.
  - cbn [Fastwalk.visitEntries]. rewrite (walkFn_file _ _ _ _ _ _ (File n None))
      by done.
    rewrite candidate_Info_None by done. apply IH.
  - assert (∃ sub', withoutFailures (Dir n i sub) = Dir n i sub') as [sub' E]
      by (destruct sub; eexists; reflexivity).
    pose proof (IH s (queued ++ [(Fastwalk.joinPaths dir n, Dir n i sub)]))
      as IH'.
    rewrite fmap_app in IH'. cbn [fmap list_fmap] in IH'.
    unfold withoutFailuresItem at 2 in IH'. cbn [fst snd] in IH'.
    rewrite E in IH' |- *. cbn [Fastwalk.visitEntries]. exact IH'.
Qed.

Lemma walkDir_withoutFailures it s :
  Fastwalk.walkDir fn (withoutFailuresItem it) s
  = let '(s', new, r) := Fastwalk.walkDir fn it s in
    (s', withoutFailuresItem <$> new, r).
Proof.
  destruct it as [path d]. unfold Fastwalk.walkDir, withoutFailuresItem.
  cbn [fst snd]. rewrite walkFn_withoutFailures.
  destruct (fn path d None s) as [s1 [err|]]; [done|].
  destruct d as [n i|n i [es|]]; [done| |].
  - rewrite withoutFailures_Dir.
    pose proof (visitEntries_withoutFailures path es s1 []) as E.
    cbn [fmap list_fmap] in E. rewrite E.
    destruct (Fastwalk.visitEntries fn path es s1 []) as [[s2 q2] r2].
    by destruct r2 as [[]|].
  - done.
Qed.

Lemma run_withoutFailures fuel sched todo s :
  Fastwalk.run fn fuel sched (withoutFailuresItem <$> todo) s
  = Fastwalk.run fn fuel sched todo s.
Proof.
  revert sched todo s. induction fuel as [|fuel IH]; intros sched todo s; [done|].
  cbn [Fastwalk.run]. rewrite pick_fmap.
  destruct (Fastwalk.pick _ todo) as [[it todo']|]; [|done].
  cbn [fmap option_fmap option_map prod_map fst snd].
  rewrite walkDir_withoutFailures.
  destruct (Fastwalk.walkDir fn it s) as [[s' new] r].
  destruct r as [[]|]; try done; rewrite <- fmap_app; apply IH.
Qed.

End Failures.

(** ** Paths of entries *)

Lemma Split_nonempty s sep : Strings.Split s sep ≠ [].
Proof.
  destruct s as [|c s]; simpl; [done|].
  destruct (Ascii.eqb c sep); [done|]. by destruct (Strings.Split s sep).
Qed.

Lemma Split_app a b sep :
  Strings.Split (a +:+ String sep b) sep
  = Strings.Split a sep ++ Strings.Split b sep.
Proof.
  induction a as [|c a IH]; simpl.
  - by rewrite Ascii.eqb_refl.
  - rewrite IH. destruct (Ascii.eqb c sep); [done|].
    pose proof (Split_nonempty a sep).
    by destruct (Strings.Split a sep).
Qed.

Lemma Split_name name :
  Filepath.hasSeparator name = false →
  Strings.Split name Filepath.Separator = [name].
Proof.
  induction name as [|c name IH]; simpl; [done|].
  unfold Filepath.IsPathSeparator. intros H.
  apply orb_false_iff in H as [-> H]. by rewrite IH.
Qed.

Lemma hasSeparator_app a b :
  Filepath.hasSeparator (a +:+ String Filepath.Separator b) = true.
Proof.
  induction a as [|c a IH]; simpl; [done|]. rewrite IH. apply orb_true_r.
Qed.

Lemma stripTrailingSeparators_name name :
  Filepath.hasSeparator name = false →
  Filepath.stripTrailingSeparators name = name.
Proof.
  induction name as [|c name IH]; simpl; [done|]. intros H.
  apply orb_false_iff in H as [Hc H]. rewrite IH, Hc by done.
  by destruct name.
Qed.

Lemma stripTrailingSeparators_app a name :
  name ≠ "" → Filepath.hasSeparator name = false →
  Filepath.stripTrailingSeparators (a +:+ name) = a +:+ name.
Proof.
  intros Hn Hs. induction a as [|c a IH].
  - by apply stripTrailingSeparators_name.
  - change (String c a +:+ name) with (String c (a +:+ name)).
    simpl. rewrite IH. destruct (a +:+ name) eqn:E; [|done].
    destruct a; cbv [String.append] in E; [congruence|discriminate].
Qed.

Lemma lastElement_app a name :
  Filepath.hasSeparator name = false →
  Filepath.lastElement (a +:+ String Filepath.Separator name) = name.
Proof.
  intros Hs. induction a as [|c a IH]; simpl.
  - by rewrite Hs.
  - by rewrite hasSeparator_app.
Qed.

Lemma append_separator a name :
  (a +:+ String Filepath.Separator "") +:+ name
  = a +:+ String Filepath.Separator name.
Proof.
  induction a as [|c a IH]; [done|].
  change (String c (((a +:+ String Filepath.Separator "") +:+ name))
          = String c (a +:+ String Filepath.Separator name)).
  by rewrite IH.
Qed.

Lemma stripTrailingSeparators_entry a name :
  name ≠ "" → Filepath.hasSeparator name = false →
  Filepath.stripTrailingSeparators (a +:+ String Filepath.Separator name)
  = a +:+ String Filepath.Separator name.
Proof.
  intros Hn Hs. rewrite <- append_separator.
  by apply stripTrailingSeparators_app.
Qed.

Lemma Base_app a name :
  name ≠ "" → Filepath.hasSeparator name = false →
  Filepath.Base (a +:+ String Filepath.Separator name) = name.
Proof.
  intros Hn Hs. unfold Filepath.Base.
  destruct (String.eqb_spec (a +:+ String Filepath.Separator name) "") as [E|_].
  { destruct a; discriminate. }
  rewrite stripTrailingSeparators_entry, lastElement_app by done.
  by destruct (String.eqb_spec name "").
Qed.

Lemma endsWithSeparator_inv dir :
  Fastwalk.endsWithSeparator dir = true →
  ∃ a, dir = a +:+ String Filepath.Separator "".
Proof.
  induction dir as [|c dir IH]; simpl; [done|].
  destruct dir as [|c' dir].
  - unfold Filepath.IsPathSeparator. intros H%Ascii.eqb_eq. subst. by exists "".
  - intros H. destruct (IH H) as [a Ha]. exists (String c a).
    change (String c (String c' dir)
            = String c (a +:+ String Filepath.Separator "")).
    by rewrite <- Ha.
Qed.

(** The path of an entry is the directory, a separator and the name, and
    its segments are those of the directory followed by the name. *)
Lemma joinPaths_inv dir name :
  ∃ a, Fastwalk.joinPaths dir name = a +:+ String Filepath.Separator name
       ∧ (a = dir ∨ dir = a +:+ String Filepath.Separator "").
Proof.
  unfold Fastwalk.joinPaths.
  destruct (Fastwalk.endsWithSeparator dir) eqn:E.
  - destruct (endsWithSeparator_inv dir E) as [a ->]. exists a. split; [|by right].
    apply append_separator.
  - exists dir. split; [done|by left].
Qed.

Lemma SkipHidden_false_parts path :
  SkipHidden path = false →
  existsb (index commonIgnoredDirs) (Strings.Split path Filepath.Separator)
  = false.
Proof. unfold SkipHidden. by destruct (_ && _). Qed.

Lemma SkipHidden_joinPaths dir name :
  SkipHidden dir = false →
  name ≠ "" → Filepath.hasSeparator name = false →
  Strings.HasPrefix name "." = false →
  index commonIgnoredDirs name = false →
  SkipHidden (Fastwalk.joinPaths dir name) = false.
Proof.
  intros Hd Hn Hs Hp Hi. apply SkipHidden_false_parts in Hd.
  destruct (joinPaths_inv dir name) as (a & -> & Ha).
  unfold SkipHidden. rewrite Base_app, Hp, andb_false_r by done.
  rewrite Split_app, (Split_name name), existsb_app by done.
  cbn [existsb]. rewrite Hi. cbn [orb]. rewrite orb_false_r.
  destruct Ha as [->| ->]; [done|].
  rewrite Split_app, existsb_app in Hd. by apply orb_false_iff in Hd as [-> _].
Qed.

Lemma SkipHidden_joinPaths_hidden dir name :
  name ≠ "" → Filepath.hasSeparator name = false →
  name ≠ "." → Strings.HasPrefix name "." = true →
  SkipHidden (Fastwalk.joinPaths dir name) = true.
Proof.
  intros Hn Hs Hdot Hp.
  destruct (joinPaths_inv dir name) as (a & -> & _).
  unfold SkipHidden. rewrite Base_app, Hp by done.
  by destruct (String.eqb_spec name ".").
Qed.

(** ** Ranking *)

Lemma less_StrictWeakOrder : StrictWeakOrder less.
Proof.
  split; unfold less, After; intros; lia.
Qed.

Lemma Merge_SliceSorts : @SliceSorts Run.Merge.
Proof.
  split; intros lt l.
  - apply merge_sort_Permutation.
  - intros [Hi Ht Hn]. simpl.
    change (StronglySorted (Run.mayPrecede lt) (merge_sort (Run.mayPrecede lt) l)).
    assert (Transitive (Run.mayPrecede lt)).
    { intros x y z Hxy Hyz. unfold Run.mayPrecede in *. by apply (Hn z y x). }
    assert (Total (Run.mayPrecede lt)).
    { intros x y. unfold Run.mayPrecede. destruct (lt y x) eqn:E1; [|by left]. right.
      destruct (lt x y) eqn:E2; [|done].
      rewrite <- (Hi x). symmetry. by apply (Ht x y x). }
    by apply StronglySorted_merge_sort.
Qed.

Section Rank.
Context `{L : Libraries}.

(** The candidates that are returned, in their order. *)
Lemma rank_None limit matches :
  rank limit (matches, None)
  = (Path <$> (if (0 <? limit) && (limit <? Z.of_nat (List.length (Slice less matches)))
               then take (Z.to_nat limit) (Slice less matches)
               else Slice less matches),
     (0 <? limit) && (limit <? Z.of_nat (List.length (Slice less matches))),
     None).
Proof. unfold rank. by destruct (_ && _). Qed.

Lemma rank_Some limit matches e :
  rank limit (matches, Some e) = ([], false, Some (Errorf "fastwalk error" e)).
Proof. reflexivity. Qed.

Lemma Glob_eq fs sched pattern searchPath limit :
  GlobWithDoubleStar fs sched pattern searchPath limit
  = match Stat fs searchPath with
    | Some _ =>
        rank limit ((collect fs sched pattern searchPath limit).1, None)
    | None => ([], false, Some (Errorf "fastwalk error" (ErrStat searchPath)))
    end.
Proof.
  unfold GlobWithDoubleStar.
  rewrite (surjective_pairing (collect fs sched pattern searchPath limit)).
  rewrite collect_error. cbn [fst snd].
  destruct (Stat fs searchPath) eqn:E; [done|].
  by rewrite collect_None.
Qed.

End Rank.

(** ** The claims *)

(** C1. With [0 < limit] the call returns at most [limit] paths, and
    [truncated] is true exactly when the walk recorded more than [limit]
    candidates; with [limit <= 0] the paths of all recorded candidates are
    returned and [truncated] is false. *)
Theorem C1_limit_and_truncated `{L : Libraries} `{!SliceSorts}
    fs sched pattern searchPath limit paths truncated err :
  GlobWithDoubleStar fs sched pattern searchPath limit = (paths, truncated, err) →
  let collected := (collect fs sched pattern searchPath limit).1 in
  (0 < limit →
     Z.of_nat (List.length paths) ≤ limit
     ∧ (truncated = true ↔ limit < Z.of_nat (List.length collected)))
  ∧ (limit ≤ 0 → paths ≡ₚ Path <$> collected ∧ truncated = false).
Proof.
  intros HG collected. rewrite Glob_eq in HG. subst collected.
  destruct (Stat fs searchPath) eqn:HS.
  - rewrite rank_None in HG.
    pose proof (Slice_Permutation less (collect fs sched pattern searchPath limit).1) as HP.
    pose proof (Permutation_length HP) as Hlen.
    set (c := (collect fs sched pattern searchPath limit).1) in *.
    rewrite Hlen in HG.
    split; intros Hl.
    + replace (0 <? limit) with true in HG by lia. simpl in HG.
      destruct (Z.ltb_spec limit (Z.of_nat (List.length c))) as [Hlt|Hge];
        injection HG as <- <- <-.
      * split; [|by split].
        rewrite length_fmap, length_take. lia.
      * split; [rewrite length_fmap; lia|]. split; [done|lia].
    + replace (0 <? limit) with false in HG by lia. simpl in HG.
      injection HG as <- <- <-. split; [|done]. by rewrite HP.
  - injection HG as <- <- <-. rewrite collect_None by done. simpl.
    split; intros Hl; [|done]. split; [lia|]. split; [done|lia].
Qed.

Lemma C1_witness :
  Z.of_nat (List.length ["proj/b.txt"]) ≤ 1
  ∧ (true = true
     ↔ 1 < Z.of_nat (List.length
             (collect (L:=Run.Merge) (Run.only "proj" Run.proj) []
                "*.txt" "proj" 1).1)).
Proof.
  refine (proj1 (@C1_limit_and_truncated Run.Merge Merge_SliceSorts
                   (Run.only "proj" Run.proj) [] "*.txt" "proj" 1
                   ["proj/b.txt"] true None _) _).
  - vm_compute. reflexivity.
  - lia.
Defined.

Lemma StronglySorted_impl {A : Type} (R1 R2 : relation A) (l : list A) :
  (∀ x y, R1 x y → R2 x y) → StronglySorted R1 l → StronglySorted R2 l.
Proof.
  intros HR. induction 1 as [|x l Hl IH Hx]; constructor; [done|].
  eapply Forall_impl; eauto.
Qed.

Lemma StronglySorted_take {A : Type} (R : relation A) (n : nat) (l : list A) :
  StronglySorted R l → StronglySorted R (take n l).
Proof.
  intros H. rewrite <- (take_drop n l) in H.
  by apply StronglySorted_app_1_l in H.
Qed.

Lemma StronglySorted_lookup {A : Type} (R : relation A) (l : list A) i j x y :
  StronglySorted R l → (i < j)%nat → l !! i = Some x → l !! j = Some y → R x y.
Proof.
  intros H. revert i j. induction H as [|z l Hl IH Hz]; intros i j Hij Hi Hj.
  - done.
  - destruct j as [|j]; [lia|]. destruct i as [|i]; simpl in *.
    + injection Hi as ->. rewrite Forall_forall in Hz.
      apply Hz. by eapply list_elem_of_lookup_2.
    + apply (IH i j); [lia|done..].
Qed.

Lemma Slice_newestFirst `{L : Libraries} `{!SliceSorts} l :
  newestFirst (Slice less l).
Proof.
  eapply StronglySorted_impl;
    [|apply (Slice_StronglySorted less l), less_StrictWeakOrder].
  unfold less, After. intros x y Hxy. simpl in Hxy. lia.
Qed.

(** C2, as the code has it. The returned paths are those of the recorded
    candidates, sorted so that no candidate is older than one that follows
    it, adjacent or not, and cut at the limit. Among candidates modified
    at the same time the order is the one [sort.Slice] leaves; it is not a
    stable sort, and nothing is promised about it. *)
Theorem C2_newest_first `{L : Libraries} `{!SliceSorts}
    fs sched pattern searchPath limit paths truncated err :
  GlobWithDoubleStar fs sched pattern searchPath limit = (paths, truncated, err) →
  ∃ sorted : list FileInfo,
    sorted ≡ₚ (collect fs sched pattern searchPath limit).1
    ∧ newestFirst sorted
    ∧ paths = Path <$> cut limit sorted
    ∧ newestFirst (cut limit sorted)
    ∧ (∀ i x y, cut limit sorted !! i = Some x →
                cut limit sorted !! S i = Some y →
                ModTime y ≤ ModTime x).
Proof.
  intros HG. rewrite Glob_eq in HG.
  assert (∀ sorted, newestFirst sorted →
            newestFirst (cut limit sorted)
            ∧ ∀ i x y, cut limit sorted !! i = Some x →
                       cut limit sorted !! S i = Some y →
                       ModTime y ≤ ModTime x) as Hcut.
  { intros sorted Hs.
    assert (newestFirst (cut limit sorted)) as Hc.
    { unfold cut. destruct (_ && _); [|done]. by apply StronglySorted_take. }
    split; [done|]. intros i x y Hi Hj.
    apply (StronglySorted_lookup _ _ i (S i) x y Hc); [lia|done..]. }
  destruct (Stat fs searchPath) eqn:HS.
  - rewrite rank_None in HG. injection HG as <- <- <-.
    set (c := (collect fs sched pattern searchPath limit).1).
    exists (Slice less c).
    split; [apply Slice_Permutation|].
    split; [apply Slice_newestFirst|].
    split; [done|]. apply Hcut, Slice_newestFirst.
  - injection HG as <- <- <-. exists [].
    split; [by rewrite collect_None|].
    split; [constructor|]. split; [by destruct limit|].
    apply Hcut. constructor.
Qed.

Lemma C2_witness :
  ∃ sorted : list FileInfo,
    sorted ≡ₚ (collect (L:=Run.Merge) (Run.only "proj" Run.proj) []
                 "*.txt" "proj" 1).1
    ∧ newestFirst sorted
    ∧ ["proj/b.txt"] = Path <$> cut 1 sorted
    ∧ newestFirst (cut 1 sorted)
    ∧ (∀ i x y, cut 1 sorted !! i = Some x → cut 1 sorted !! S i = Some y →
                ModTime y ≤ ModTime x).
Proof.
  refine (@C2_newest_first Run.Merge Merge_SliceSorts
            (Run.only "proj" Run.proj) [] "*.txt" "proj" 1
            ["proj/b.txt"] true None _).
  vm_compute. reflexivity.
Defined.

(** C2 as stated fails with Go's [sort.Slice]: of thirteen files in one
    directory, the first twelve modified at the same time and the last one
    later, f06 is returned before f02, which the walk recorded first. *)
Lemma C2_counterexample :
  ¬ tiesKeepDiscoveryOrder
      (collect (L:=Run.Go) (Run.only "many" Run.many) [] "*" "many" 0).1
      (GlobWithDoubleStar (L:=Run.Go) (Run.only "many" Run.many) []
         "*" "many" 0).1.1.
Proof.
  intros H.
  specialize (H {| Path := "many/f06"; ModTime := 0 |}
                {| Path := "many/f02"; ModTime := 0 |}).
  assert (Hc : (collect (L:=Run.Go) (Run.only "many" Run.many) [] "*" "many" 0).1
               = Run.manyCandidates ++ [{| Path := "many/f12"; ModTime := 1 |}])
    by (vm_compute; reflexivity).
  assert (Hp : (GlobWithDoubleStar (L:=Run.Go) (Run.only "many" Run.many) []
                  "*" "many" 0).1.1
               = ["many/f12"; "many/f06"; "many/f02"; "many/f03"; "many/f04";
                  "many/f05"; "many/f00"; "many/f07"; "many/f08"; "many/f09";
                  "many/f10"; "many/f11"; "many/f01"])
    by (vm_compute; reflexivity).
  rewrite Hc, Hp in H. clear Hc Hp.
  assert (Hb : before
                 (Path <$> Run.manyCandidates
                             ++ [{| Path := "many/f12"; ModTime := 1 |}])
                 "many/f06" "many/f02").
  { apply H.
    - apply list_elem_of_lookup. exists 6%nat. reflexivity.
    - apply list_elem_of_lookup. exists 2%nat. reflexivity.
    - reflexivity.
    - exists 1%nat, 2%nat. split; [lia|]. split; reflexivity. }
  destruct Hb as (i & j & Hij & Hi & Hj).
  assert (i = 6%nat) as ->.
  { do 14 (destruct i as [|i]; [first [discriminate Hi | reflexivity]|]).
    discriminate Hi. }
  assert (j = 2%nat) as ->.
  { do 14 (destruct j as [|j]; [first [discriminate Hj | reflexivity]|]).
    discriminate Hj. }
  lia.
Qed.

(** C3. The callback answers [SkipAll] when the candidates have reached
    [limit * 2], and the walk does not end there: an error answered for a
    file ends the listing of its directory only, and comes back to the
    callback as the error of that directory, which it answers with nil
    like every error. The directories queued are read all the same. Under
    tree/, with x.txt, y.txt and z.txt in three directories, and a limit of
    1, the callback answers [SkipAll] with the second candidate, and every
    run records the three of them, more than [2 * limit]. *)
Theorem C3_walk_goes_on (sched : list nat) :
  let x := {| Path := "tree/d1/x.txt"; ModTime := 1 |} in
  let y := {| Path := "tree/d2/y.txt"; ModTime := 2 |} in
  let z := {| Path := "tree/d3/z.txt"; ModTime := 3 |} in
  let collected :=
    (collect (L:=Run.Go) (Run.only "tree" Run.tree) sched
       "*/*.txt" "tree" 1).1 in
  walkFn (L:=Run.Go) "*/*.txt" "tree" 1 "tree" None
    "tree/d2/y.txt" (File "y.txt" (Some 2)) None [x]
  = ([x; y], Some SkipAll)
  ∧ collected ≡ₚ [x; y; z]
  ∧ 2 * 1 < Z.of_nat (List.length collected).
Proof.
  intros x y z collected. split; [vm_compute; reflexivity|].
  assert (collected ≡ₚ [x; y; z]) as HP.
  { subst collected.
    pose proof (collect_submseteq (L:=Run.Go) (Run.only "tree" Run.tree) sched
                  "*/*.txt" "tree" 1) as Hup.
    pose proof (proj1 (collect_firsts (L:=Run.Go) (Run.only "tree" Run.tree)
                         sched "*/*.txt" "tree" 1)) as Hlow.
    assert (qualifyingOf (L:=Run.Go) (Run.only "tree" Run.tree)
              "*/*.txt" "tree" = [x; y; z]) as EQ by (vm_compute; reflexivity).
    assert (firstsOf (L:=Run.Go) (Run.only "tree" Run.tree)
              "*/*.txt" "tree" = [x; y; z]) as EF by (vm_compute; reflexivity).
    rewrite EQ in Hup. rewrite EF in Hlow.
    apply submseteq_length_Permutation; [done|].
    by apply submseteq_length in Hlow. }
  split; [done|]. rewrite (Permutation_length HP). simpl. lia.
Qed.

(** C4. [shouldSkip] answers true exactly when the path is hidden or
    conventionally ignored, or an ignore index is there, the path relative
    to [rootPath] can be computed and matches a rule of the index. Without
    an index, or when the relative path cannot be computed, the answer is
    that of [SkipHidden]; and a search path under which ".gitignore" cannot
    be stat'ed, or cannot be compiled, has no index. *)
Theorem C4_shouldSkip `{L : Libraries} path rootPath ignoreIndex :
  (shouldSkip path rootPath ignoreIndex = true
   ↔ (hidden path ∨ conventionallyIgnored path)
     ∨ ∃ gi relPath, ignoreIndex = Some gi
                     ∧ Rel rootPath path = Some relPath
                     ∧ MatchesPath gi relPath = true)
  ∧ (ignoreIndex = None → shouldSkip path rootPath ignoreIndex = SkipHidden path)
  ∧ (Rel rootPath path = None →
       shouldSkip path rootPath ignoreIndex = SkipHidden path)
  ∧ (∀ fs searchPath,
       Stat fs (Join searchPath ".gitignore") = None
       ∨ CompileIgnoreFile fs (Join searchPath ".gitignore") = None →
       gitignore (NewFastGlobWalker fs searchPath) = None).
Proof.
  split; [|split; [|split]].
  - rewrite <- SkipHidden_spec. unfold shouldSkip.
    destruct (SkipHidden path); [split; auto|].
    destruct ignoreIndex as [gi|].
    + destruct (Rel rootPath path) as [relPath|] eqn:HR.
      * destruct (MatchesPath gi relPath) eqn:HM.
        -- split; [|done]. intros _. right. by exists gi, relPath.
        -- split; [done|]. intros [?|(gi' & r' & ? & ? & ?)]; [done|].
           congruence.
      * split; [done|]. intros [?|(gi' & r' & ? & ? & ?)]; done.
    + split; [done|]. intros [?|(gi' & r' & ? & ? & ?)]; done.
  - intros ->. unfold shouldSkip. by destruct (SkipHidden path).
  - intros HR. unfold shouldSkip. rewrite HR.
    destruct (SkipHidden path); [done|]. by destruct ignoreIndex.
  - intros fs searchPath H. unfold NewFastGlobWalker.
    destruct (Stat fs _); [|done].
    destruct (CompileIgnoreFile fs _); [|done].
    by destruct H.
Qed.

Lemma C4_witness :
  shouldSkip (L:=Run.Go) "proj/a.txt" "proj" None = SkipHidden "proj/a.txt"
  ∧ shouldSkip (L:=Run.Go) "/other/a.txt" "proj" (Some ["a.txt"])
    = SkipHidden "/other/a.txt"
  ∧ gitignore (NewFastGlobWalker (L:=Run.Go) (Run.only "proj" Run.proj) "proj")
    = None.
Proof.
  split; [|split].
  - exact (proj1 (proj2 (@C4_shouldSkip Run.Go "proj/a.txt" "proj" None))
             eq_refl).
  - exact (proj1 (proj2 (proj2
             (@C4_shouldSkip Run.Go "/other/a.txt" "proj" (Some ["a.txt"]))))
             eq_refl).
  - exact (proj2 (proj2 (proj2 (@C4_shouldSkip Run.Go "proj" "proj" None)))
             (Run.only "proj" Run.proj) "proj" (or_introl eq_refl)).
Defined.

(** C6, as the code has it. When the walk returns an error, the call
    returns it, wrapped, with no path and [truncated] false, whatever the
    walk had recorded; the walk returns the error of [os.Stat] on the
    root, as for a root that does not exist. A root that can be stat'ed
    and cannot be opened is no failure of the walk: the error of reading
    it goes to the callback, which answers nil, and the call returns no
    path, [truncated] false and no error. *)
Theorem C6_fatal_error_no_results `{L : Libraries} `{!SliceSorts}
    fs sched pattern searchPath limit :
  (∀ e, (collect fs sched pattern searchPath limit).2 = Some e →
        GlobWithDoubleStar fs sched pattern searchPath limit
        = ([], false, Some (Errorf "fastwalk error" e)))
  ∧ (Stat fs searchPath = None →
       GlobWithDoubleStar fs sched pattern searchPath limit
       = ([], false, Some (Errorf "fastwalk error" (ErrStat searchPath))))
  ∧ (∀ matches e,
       rank limit (matches, Some e)
       = ([], false, Some (Errorf "fastwalk error" e)))
  ∧ (∀ name info,
       Stat fs searchPath = Some (Dir name info None) →
       GlobWithDoubleStar fs sched pattern searchPath limit
       = ([], false, None)).
Proof.
  split; [|split; [|split]].
  - intros e He. unfold GlobWithDoubleStar.
    rewrite (surjective_pairing (collect fs sched pattern searchPath limit)).
    by rewrite He.
  - intros HS. by rewrite Glob_eq, HS.
  - done.
  - intros name info HS. rewrite Glob_eq, HS, rank_None.
    assert ((collect fs sched pattern searchPath limit).1 = []) as ->.
    { apply submseteq_nil_r. etrans; [apply collect_submseteq|].
      unfold qualifyingOf. rewrite HS. cbn [qualifying].
      by destruct (shouldSkip _ _ _). }
    assert (Slice less [] = []) as ->
      by (apply Permutation_nil_r, Slice_Permutation).
    cbn [List.length].
    assert ((0 <? limit) && (limit <? Z.of_nat 0) = false) as ->
      by (destruct (Z.ltb_spec 0 limit), (Z.ltb_spec limit (Z.of_nat 0));
          simpl; lia).
    done.
Qed.

Lemma C6_witness :
  GlobWithDoubleStar (L:=Run.Merge) (Run.only "proj" Run.proj) []
    "*.txt" "nope" 1
  = ([], false, Some (Errorf "fastwalk error" (ErrStat "nope")))
  ∧ GlobWithDoubleStar (L:=Run.Merge) (Run.only "closed" Run.closed) []
      "*.txt" "closed" 1
    = ([], false, None).
Proof.
  apply conj.
  - exact (proj1 (proj2 (@C6_fatal_error_no_results Run.Merge Merge_SliceSorts
                           (Run.only "proj" Run.proj) [] "*.txt" "nope" 1))
             eq_refl).
  - exact (proj2 (proj2 (proj2 (@C6_fatal_error_no_results Run.Merge
                                  Merge_SliceSorts
                                  (Run.only "closed" Run.closed) []
                                  "*.txt" "closed" 1)))
             "closed" (Some 0) eq_refl).
Defined.

(** C6 as stated fails for a root that cannot be opened: closed/ can be
    stat'ed and cannot be read, and the call returns no error. *)
Lemma C6_counterexample :
  Run.closed = Dir "closed" (Some 0) None
  ∧ GlobWithDoubleStar (L:=Run.Go) (Run.only "closed" Run.closed) []
      "*.txt" "closed" 1
    = ([], false, None)
  ∧ (GlobWithDoubleStar (L:=Run.Go) (Run.only "closed" Run.closed) []
       "*.txt" "closed" 1).2
    ≠ Some (Errorf "fastwalk error" (ErrReadDir "closed")).
Proof.
  split; [reflexivity|].
  assert (GlobWithDoubleStar (L:=Run.Go) (Run.only "closed" Run.closed) []
            "*.txt" "closed" 1 = ([], false, None)) as E
    by (vm_compute; reflexivity).
  split; [exact E|]. rewrite E. discriminate.
Qed.

(** ** Patterns that match nothing *)

Section NoMatch.
Context `{L : Libraries}.

Lemma candidate_no_match pattern searchPath rootPath gi path d :
  (∀ name, Match pattern name ≠ Some true) →
  candidate pattern searchPath rootPath gi path d = None.
Proof.
  intros H. unfold candidate. destruct (shouldSkip _ _ _); [done|].
  destruct (Match pattern _) as [[]|] eqn:E; [|done..].
  by apply H in E.
Qed.

Lemma qualifying_no_match pattern searchPath rootPath gi path d :
  (∀ name, Match pattern name ≠ Some true) →
  qualifying pattern searchPath rootPath gi path d = [].
Proof.
  intros H. revert path.
  induction d as [name info|name info|name info es IH]
    using DirEntry_tree_ind; intros path; cbn [qualifying].
  - by rewrite candidate_no_match.
  - by destruct (shouldSkip _ _ _).
  - destruct (shouldSkip _ _ _); [done|].
    induction IH as [|e es He _ IHes]; [done|].
    cbn [flat_map]. by rewrite He, IHes.
Qed.

Lemma collect_no_match fs sched pattern searchPath limit :
  (∀ name, Match pattern name ≠ Some true) →
  (collect fs sched pattern searchPath limit).1 = [].
Proof.
  intros H. apply submseteq_nil_r.
  etrans; [apply collect_submseteq|].
  unfold qualifyingOf. destruct (Stat fs searchPath); [|done].
  by rewrite qualifying_no_match.
Qed.

End NoMatch.

(** C10. For a malformed pattern [doublestar.Match] returns its error for
    every name; the callback takes it for a non-match, so that no file is
    recorded. The call returns no path, [truncated] false and no error of
    the pattern: none at all when the root can be stat'ed. *)
Theorem C10_malformed_pattern_matches_nothing `{L : Libraries} `{!SliceSorts}
    fs sched pattern searchPath limit :
  (∀ name, Match pattern name = None) →
  (∀ path d matches,
     IsDir d = false →
     walkFn pattern searchPath limit (rootPath (NewFastGlobWalker fs searchPath))
       (gitignore (NewFastGlobWalker fs searchPath)) path d None matches
     = (matches, None))
  ∧ (is_Some (Stat fs searchPath) →
       GlobWithDoubleStar fs sched pattern searchPath limit = ([], false, None))
  ∧ (Stat fs searchPath = None →
       GlobWithDoubleStar fs sched pattern searchPath limit
       = ([], false, Some (Errorf "fastwalk error" (ErrStat searchPath)))).
Proof.
  intros HM.
  assert (∀ name, Match pattern name ≠ Some true) as HM'
    by (intros name; by rewrite HM).
  split; [|split].
  - intros path d matches Hd. rewrite walkFn_file by done.
    by rewrite candidate_no_match.
  - intros [d Hd]. rewrite Glob_eq, Hd, rank_None.
    rewrite collect_no_match by done.
    assert (Slice less [] = []) as ->
      by (apply Permutation_nil_r, Slice_Permutation).
    cbn [List.length].
    assert ((0 <? limit) && (limit <? Z.of_nat 0) = false) as ->
      by (destruct (Z.ltb_spec 0 limit), (Z.ltb_spec limit (Z.of_nat 0));
          simpl; lia).
    done.
  - intros HS. by rewrite Glob_eq, HS.
Qed.

Lemma C10_witness :
  GlobWithDoubleStar (L:=Run.Merge) (Run.only "proj" Run.proj) [] "*.[" "proj" 0
  = ([], false, None).
Proof.
  refine (proj1 (proj2 (@C10_malformed_pattern_matches_nothing Run.Merge
            Merge_SliceSorts (Run.only "proj" Run.proj) [] "*.[" "proj" 0 _)) _).
  - intros name. reflexivity.
  - eexists. reflexivity.
Defined.

(** ** Access errors on single entries *)

Section Absorb.
Context `{L : Libraries}.

Lemma NewFastGlobWalker_withoutFailures fs searchPath :
  NewFastGlobWalker (withoutFailuresFS fs) searchPath
  = NewFastGlobWalker fs searchPath.
Proof.
  unfold NewFastGlobWalker, withoutFailuresFS. cbn [Stat CompileIgnoreFile].
  by destruct (Stat fs _).
Qed.

Lemma collect_withoutFailures fs sched pattern searchPath limit :
  collect (withoutFailuresFS fs) sched pattern searchPath limit
  = collect fs sched pattern searchPath limit.
Proof.
  unfold collect. rewrite NewFastGlobWalker_withoutFailures.
  unfold Fastwalk.Walk, withoutFailuresFS. cbn [Stat].
  destruct (Stat fs searchPath) as [d|]; [|done].
  cbn [fmap option_fmap option_map].
  rewrite (run_fuel _ _ (Fastwalk.weight d)).
  - apply (run_withoutFailures _ _ _ _ _ _ _
             [(Fastwalk.cleanRootPath searchPath, d)]).
  - unfold Fastwalk.weights. simpl. lia.
  - pose proof (weight_withoutFailures d).
    unfold Fastwalk.weights. simpl. lia.
Qed.

End Absorb.

(** C7. An entry that cannot be accessed is passed over and nothing else
    is: the callback answers nil, with nothing recorded, when it is handed
    the error of an entry and when [Info] fails on a matching file; the
    call returns what it returns on the tree without these entries (a file
    whose [Info] fails left out, a directory that cannot be read taken as
    empty), and no error when the root can be stat'ed. *)
Theorem C7_entry_errors_absorbed `{L : Libraries}
    fs sched pattern searchPath limit :
  let walker := NewFastGlobWalker fs searchPath in
  let fn := walkFn pattern searchPath limit (rootPath walker) (gitignore walker) in
  (∀ path d e matches, fn path d (Some e) matches = (matches, None))
  ∧ (∀ path d matches,
       IsDir d = false → Info d = None → fn path d None matches = (matches, None))
  ∧ GlobWithDoubleStar fs sched pattern searchPath limit
    = GlobWithDoubleStar (withoutFailuresFS fs) sched pattern searchPath limit
  ∧ (is_Some (Stat fs searchPath) →
       (GlobWithDoubleStar fs sched pattern searchPath limit).2 = None).
Proof.
  intros walker fn. subst fn. split; [|split; [|split]].
  - done.
  - intros path d matches Hd Hi. rewrite walkFn_file by done.
    by rewrite candidate_Info_None.
  - unfold GlobWithDoubleStar. by rewrite collect_withoutFailures.
  - intros [d Hd]. rewrite Glob_eq, Hd. unfold rank. by destruct (_ && _).
Qed.

Lemma C7_witness :
  walkFn (L:=Run.Go) "*.txt" "tree" 0 "tree" None "tree/gone.txt"
    (File "gone.txt" None) None []
  = ([], None)
  ∧ (GlobWithDoubleStar (L:=Run.Go) (Run.only "tree" Run.tree) []
       "*/*.txt" "tree" 0).2 = None.
Proof.
  destruct (@C7_entry_errors_absorbed Run.Go (Run.only "tree" Run.tree) []
              "*.txt" "tree" 0) as (_ & H2 & _).
  destruct (@C7_entry_errors_absorbed Run.Go (Run.only "tree" Run.tree) []
              "*/*.txt" "tree" 0) as (_ & _ & _ & H4).
  split.
  - exact (H2 "tree/gone.txt" (File "gone.txt" None) [] eq_refl eq_refl).
  - apply H4. eexists. reflexivity.
Defined.

(** ** Two runs *)

Section Runs.
Context `{L : Libraries} `{!SliceSorts}.

Lemma Glob_ranked fs sched pattern searchPath limit d :
  Stat fs searchPath = Some d →
  let c := (collect fs sched pattern searchPath limit).1 in
  GlobWithDoubleStar fs sched pattern searchPath limit
  = (Path <$> cut limit (Slice less c),
     (0 <? limit) && (limit <? Z.of_nat (List.length c)), None).
Proof.
  intros Hd c. rewrite Glob_eq, Hd, rank_None. fold c. unfold cut.
  by rewrite (Permutation_length (Slice_Permutation less c)).
Qed.

Lemma int_wrap_small z : - 2 ^ 63 ≤ z < 2 ^ 63 → int_wrap z = z.
Proof. intros Hz. unfold int_wrap. rewrite Z.mod_small by lia. lia. Qed.

Lemma collect_exhaustive fs sched pattern searchPath limit :
  limit ≤ 0
  ∨ (limit * 2 < 2 ^ 63
     ∧ Z.of_nat (List.length (qualifyingOf fs pattern searchPath)) ≤ limit * 2) →
  (collect fs sched pattern searchPath limit).1
  ≡ₚ qualifyingOf fs pattern searchPath.
Proof.
  intros Hc.
  destruct (collect_complete fs sched pattern searchPath limit) as [HP|Hs];
    [done|].
  destruct Hc as [Hl|[Hw Hn]]; [by rewrite stops_unlimited in Hs|].
  apply andb_true_iff in Hs as [H0%Z.ltb_lt Hs%Z.leb_le].
  rewrite int_wrap_small in Hs by lia.
  apply submseteq_length_Permutation; [apply collect_submseteq|lia].
Qed.

(** Two runs record the same candidates when no listing is cut short,
    and when every listing is cut at its first candidate. *)
Lemma collect_agree fs sched pattern searchPath limit :
  limit < 2 ^ 63 →
  limit ≤ 0
  ∨ Z.of_nat (List.length (qualifyingOf fs pattern searchPath)) ≤ limit * 2 →
  (collect fs sched pattern searchPath limit).1
  ≡ₚ (if (0 <? limit) && (2 ^ 63 <=? limit * 2)
      then firstsOf fs pattern searchPath
      else qualifyingOf fs pattern searchPath).
Proof.
  intros Hint Hc.
  destruct (Z.ltb_spec 0 limit) as [H0|H0]; cbn [andb].
  - destruct (Z.leb_spec (2 ^ 63) (limit * 2)) as [Hw|Hw].
    + apply collect_firsts; [done|]. unfold int_wrap.
      replace (limit * 2 + 2 ^ 63) with (limit * 2 - 2 ^ 63 + 1 * 2 ^ 64)
        by lia.
      rewrite Z.mod_add by lia. rewrite Z.mod_small by lia. lia.
    + apply collect_exhaustive. right. split; [done|]. lia.
  - apply collect_exhaustive. by left.
Qed.

(** Whether more than [limit] candidates are recorded does not depend on
    the run. *)
Lemma collect_truncated fs sched1 sched2 pattern searchPath limit :
  limit < 2 ^ 63 →
  (0 <? limit)
  && (limit <? Z.of_nat
        (List.length (collect fs sched1 pattern searchPath limit).1))
  = (0 <? limit)
    && (limit <? Z.of_nat
          (List.length (collect fs sched2 pattern searchPath limit).1)).
Proof.
  intros Hint.
  destruct (Z.ltb_spec 0 limit) as [H0|H0]; [cbn [andb]|done].
  destruct (Z.leb_spec (2 ^ 63) (limit * 2)) as [Hw|Hw].
  - assert (int_wrap (limit * 2) ≤ 1) as Hi.
    { unfold int_wrap.
      replace (limit * 2 + 2 ^ 63) with (limit * 2 - 2 ^ 63 + 1 * 2 ^ 64)
        by lia.
      rewrite Z.mod_add by lia. rewrite Z.mod_small by lia. lia. }
    pose proof (proj2 (collect_firsts fs sched1 pattern searchPath limit)
                  H0 Hi) as H1.
    pose proof (proj2 (collect_firsts fs sched2 pattern searchPath limit)
                  H0 Hi) as H2.
    by rewrite (Permutation_length H1), (Permutation_length H2).
  - pose proof (submseteq_length _ _
                  (collect_submseteq fs sched1 pattern searchPath limit)) as L1.
    pose proof (submseteq_length _ _
                  (collect_submseteq fs sched2 pattern searchPath limit)) as L2.
    assert (∀ sched,
              List.length (collect fs sched pattern searchPath limit).1
              = List.length (qualifyingOf fs pattern searchPath)
              ∨ limit * 2
                ≤ Z.of_nat
                    (List.length (collect fs sched pattern searchPath limit).1))
      as Hd.
    { intros sched.
      destruct (collect_complete fs sched pattern searchPath limit) as [HP|Hs].
      - left. by rewrite (Permutation_length HP).
      - right. apply andb_true_iff in Hs as [_ Hs%Z.leb_le].
        by rewrite int_wrap_small in Hs by lia. }
    destruct (Hd sched1), (Hd sched2),
      (Z.ltb_spec limit
         (Z.of_nat (List.length (collect fs sched1 pattern searchPath limit).1))),
      (Z.ltb_spec limit
         (Z.of_nat (List.length (collect fs sched2 pattern searchPath limit).1)));
      try done; lia.
Qed.

Lemma length_Slice lt (l : list FileInfo) :
  List.length (Slice lt l) = List.length l.
Proof. apply Permutation_length, Slice_Permutation. Qed.

Lemma cut_whole {A : Type} limit (l : list A) :
  limit ≤ 0 ∨ Z.of_nat (List.length l) ≤ limit → cut limit l = l.
Proof.
  intros Hc. unfold cut.
  destruct (Z.ltb_spec 0 limit), (Z.ltb_spec limit (Z.of_nat (List.length l)));
    cbn [andb]; try done; lia.
Qed.

Lemma ModTime_Slice (c1 c2 : list FileInfo) :
  c1 ≡ₚ c2 → ModTime <$> Slice less c1 = ModTime <$> Slice less c2.
Proof.
  intros HP.
  apply (StronglySorted_unique_strong (λ a b : Z, b ≤ a)).
  - intros; lia.
  - eapply StronglySorted_fmap; [|apply (Slice_newestFirst c1)]. done.
  - eapply StronglySorted_fmap; [|apply (Slice_newestFirst c2)]. done.
  - apply fmap_Permutation.
    by rewrite !Slice_Permutation.
Qed.

End Runs.

(** C9, as the code has it. Two runs on the same tree with the same
    arguments differ in the order in which the workers come upon the
    directories. They return the same truncation flag and the same error.
    When no listing is cut short ([limit <= 0], or no more than
    [2 * limit] qualifying candidates in the tree) the modification times
    of the results are the same list in both runs, so that the results
    differ at most among candidates modified at the same time; when
    nothing is cut off at all ([limit <= 0], or no more than [limit]
    candidates) the two runs return the same paths. [limit] is an [int],
    below [2 ^ 63]. *)
Theorem C9_runs_agree `{L : Libraries} `{!SliceSorts}
    fs sched1 sched2 pattern searchPath limit :
  limit < 2 ^ 63 →
  let r1 := GlobWithDoubleStar fs sched1 pattern searchPath limit in
  let r2 := GlobWithDoubleStar fs sched2 pattern searchPath limit in
  let all := qualifyingOf fs pattern searchPath in
  r1.1.2 = r2.1.2
  ∧ r1.2 = r2.2
  ∧ (limit ≤ 0 ∨ Z.of_nat (List.length all) ≤ limit → r1.1.1 ≡ₚ r2.1.1)
  ∧ (limit ≤ 0 ∨ Z.of_nat (List.length all) ≤ limit * 2 →
       ∃ ranked1 ranked2 : list FileInfo,
         r1.1.1 = Path <$> ranked1 ∧ r2.1.1 = Path <$> ranked2
         ∧ ranked1 ⊆ all ∧ ranked2 ⊆ all
         ∧ ModTime <$> ranked1 = ModTime <$> ranked2).
Proof.
  intros Hint r1 r2 all. subst r1 r2 all.
  destruct (Stat fs searchPath) as [d|] eqn:Hd.
  - rewrite !(Glob_ranked _ _ _ _ _ d Hd). cbn [fst snd].
    set (c1 := (collect fs sched1 pattern searchPath limit).1).
    set (c2 := (collect fs sched2 pattern searchPath limit).1).
    pose proof (collect_submseteq fs sched1 pattern searchPath limit) as Hs1.
    pose proof (collect_submseteq fs sched2 pattern searchPath limit) as Hs2.
    fold c1 in Hs1. fold c2 in Hs2.
    pose proof (submseteq_length _ _ Hs1) as Hl1.
    pose proof (submseteq_length _ _ Hs2) as Hl2.
    assert (limit ≤ 0
            ∨ Z.of_nat (List.length (qualifyingOf fs pattern searchPath))
              ≤ limit * 2 → c1 ≡ₚ c2) as Hagree.
    { intros Hc. subst c1 c2. by rewrite !collect_agree. }
    split; [apply collect_truncated; lia|]. split; [done|]. split.
    + intros Hc. assert (c1 ≡ₚ c2) as HP by (apply Hagree; lia).
      rewrite !cut_whole by (rewrite length_Slice; lia).
      by rewrite !Slice_Permutation, HP.
    + intros Hc. specialize (Hagree Hc).
      exists (cut limit (Slice less c1)), (cut limit (Slice less c2)).
      split; [done|]. split; [done|].
      assert (∀ c, c ⊆+ qualifyingOf fs pattern searchPath →
                   cut limit (Slice less c) ⊆ qualifyingOf fs pattern searchPath)
        as Hsub.
      { intros c Hsc x Hx. eapply elem_of_submseteq; [|exact Hsc].
        rewrite <- (Slice_Permutation less c).
        unfold cut in Hx. destruct (_ && _); [|done].
        by apply (subseteq_take (Z.to_nat limit)). }
      split; [by apply Hsub|]. split; [by apply Hsub|].
      unfold cut. rewrite !length_Slice, (Permutation_length Hagree).
      assert (ModTime <$> Slice less c1 = ModTime <$> Slice less c2) as HM
        by (by apply ModTime_Slice).
      destruct (_ && _); [|done]. by rewrite !fmap_take, HM.
  - rewrite !Glob_eq, Hd. cbn [fst snd].
    split; [done|]. split; [done|]. split; [done|].
    intros _. exists [], []. repeat split; try done; apply list_subseteq_nil.
Qed.

Lemma C9_witness :
  (GlobWithDoubleStar (L:=Run.Merge) (Run.only "tree" Run.tree) [0; 0]%nat
     "*/*.txt" "tree" 3).1.1
  ≡ₚ (GlobWithDoubleStar (L:=Run.Merge) (Run.only "tree" Run.tree) [0; 2]%nat
        "*/*.txt" "tree" 3).1.1.
Proof.
  refine (proj1 (proj2 (proj2 (@C9_runs_agree Run.Merge Merge_SliceSorts
            (Run.only "tree" Run.tree) [0; 0]%nat [0; 2]%nat "*/*.txt" "tree" 3
            _))) _).
  - lia.
  - right. vm_compute. discriminate.
Defined.

(** C9 as stated fails: two/ holds the directories da, with a1.txt and
    a2.txt, and db, with b1.txt and b2.txt, and the limit is 1. The
    callback answers [SkipAll] from the second candidate on, which ends
    the listing in progress. A run whose workers read da first records
    a1.txt, a2.txt and b1.txt and returns a2.txt; a run whose workers read
    db first records b1.txt, b2.txt and a1.txt and returns b2.txt. No two
    of the files were modified at the same time. *)
Lemma C9_counterexample :
  GlobWithDoubleStar (L:=Run.Go) (Run.only "two" Run.two) [0; 0]%nat
    "*/*.txt" "two" 1
  = (["two/da/a2.txt"], true, None)
  ∧ GlobWithDoubleStar (L:=Run.Go) (Run.only "two" Run.two) [0; 1]%nat
      "*/*.txt" "two" 1
    = (["two/db/b2.txt"], true, None)
  ∧ ¬ (GlobWithDoubleStar (L:=Run.Go) (Run.only "two" Run.two) [0; 0]%nat
         "*/*.txt" "two" 1).1.1
      ≡ₚ (GlobWithDoubleStar (L:=Run.Go) (Run.only "two" Run.two) [0; 1]%nat
            "*/*.txt" "two" 1).1.1.
Proof.
  split; [vm_compute; reflexivity|]. split; [vm_compute; reflexivity|].
  intros H.
  assert ((GlobWithDoubleStar (L:=Run.Go) (Run.only "two" Run.two) [0; 0]%nat
             "*/*.txt" "two" 1).1.1 = ["two/da/a2.txt"]) as E1
    by (vm_compute; reflexivity).
  assert ((GlobWithDoubleStar (L:=Run.Go) (Run.only "two" Run.two) [0; 1]%nat
             "*/*.txt" "two" 1).1.1 = ["two/db/b2.txt"]) as E2
    by (vm_compute; reflexivity).
  rewrite E1, E2 in H. apply Permutation_singleton_l in H. discriminate.
Qed.

(** ** The scenario of two files and a .git directory *)

Section Scenario.
Context `{L : Libraries} `{!SliceSorts}.

Lemma shouldSkip_None path rootPath :
  shouldSkip path rootPath None = SkipHidden path.
Proof. unfold shouldSkip. by destruct (SkipHidden path). Qed.

Lemma newestFirst_two (s : list FileInfo) old new :
  ModTime old < ModTime new →
  s ≡ₚ [old; new] → newestFirst s → s = [new; old].
Proof.
  intros Hlt HP HS.
  apply (StronglySorted_unique_strong (λ x y, ModTime y ≤ ModTime x)).
  - intros x1 x2 H1 H2 Hle1 Hle2. rewrite HP in H1.
    set_unfold. destruct H1 as [->|[->|[]]], H2 as [->|[->|[]]];
      try done; lia.
  - done.
  - repeat constructor. lia.
  - rewrite HP. apply Permutation_swap.
Qed.

End Scenario.

(** C8, as the code has it. The paths returned are those the walk reports,
    the root joined with the name: for a root that holds a.txt modified at
    [T], b.txt modified at [T + 10] and a directory .git, the search for
    "*.txt" with limit 1 returns the path of b.txt under the root and
    [truncated] true. This is for a root whose own path is not one that
    [SkipHidden] skips, with no .gitignore in it, and with [filepath.Rel]
    and [doublestar.Match] answering on the two names as they do. *)
Theorem C8_scenario `{L : Libraries} `{!SliceSorts}
    fs sched root T name info gitinfo gitentries es :
  let r := Fastwalk.cleanRootPath root in
  Stat fs root = Some (Dir name info (Some es)) →
  es ≡ₚ [File "a.txt" (Some T); File "b.txt" (Some (T + 10));
         Dir ".git" gitinfo gitentries] →
  Stat fs (Join root ".gitignore") = None →
  SkipHidden r = false →
  (∀ n, n ∈ ["a.txt"; "b.txt"] →
        Rel root (Fastwalk.joinPaths r n) = Some n
        ∧ Match "*.txt" n = Some true) →
  GlobWithDoubleStar fs sched "*.txt" root 1
  = ([Fastwalk.joinPaths r "b.txt"], true, None).
Proof.
  intros r Hroot Hes Hgi Hr Hlib.
  set (ca := {| Path := Fastwalk.joinPaths r "a.txt"; ModTime := T |}).
  set (cb := {| Path := Fastwalk.joinPaths r "b.txt"; ModTime := T + 10 |}).
  assert (gitignore (NewFastGlobWalker fs root) = None) as Hg
    by (unfold NewFastGlobWalker; by rewrite Hgi).
  assert (rootPath (NewFastGlobWalker fs root) = root) as Hrp
    by (unfold NewFastGlobWalker; by rewrite Hgi).
  assert (∀ n mt, n ∈ ["a.txt"; "b.txt"] →
            candidate "*.txt" root root None (Fastwalk.joinPaths r n)
              (File n (Some mt))
            = Some {| Path := Fastwalk.joinPaths r n; ModTime := mt |}) as Hcand.
  { intros n mt Hn. destruct (Hlib n Hn) as [HR HM].
    unfold candidate. rewrite shouldSkip_None, SkipHidden_joinPaths; try done.
    - rewrite HR. cbn [from_option id]. by rewrite HM.
    - set_unfold. by destruct Hn as [->|[->|[]]].
    - set_unfold. by destruct Hn as [->|[->|[]]].
    - set_unfold. by destruct Hn as [->|[->|[]]].
    - set_unfold. by destruct Hn as [->|[->|[]]]; vm_compute. }
  assert (qualifyingOf fs "*.txt" root ≡ₚ [ca; cb]) as HQ.
  { unfold qualifyingOf. rewrite Hroot, Hg, Hrp. fold r. cbn [qualifying].
    rewrite shouldSkip_None, Hr.
    rewrite (Permutation_flat_map _ Hes). cbn [flat_map Name qualifying].
    rewrite !Hcand by (apply list_elem_of_In; simpl; auto).
    rewrite shouldSkip_None, SkipHidden_joinPaths_hidden by done.
    done. }
  assert ((collect fs sched "*.txt" root 1).1 ≡ₚ [ca; cb]) as HC.
  { rewrite collect_exhaustive; [done|]. right. split; [lia|].
    by rewrite (Permutation_length HQ). }
  rewrite (Glob_ranked _ _ _ _ _ _ Hroot). cbn zeta.
  rewrite (Permutation_length HC).
  rewrite (newestFirst_two (Slice less (collect fs sched "*.txt" root 1).1) ca cb).
  - done.
  - simpl. lia.
  - by rewrite Slice_Permutation.
  - apply Slice_newestFirst.
Qed.

Lemma C8_witness :
  GlobWithDoubleStar (L:=Run.Merge) (Run.only "proj" Run.proj) [] "*.txt" "proj" 1
  = (["proj/b.txt"], true, None).
Proof.
  refine (@C8_scenario Run.Merge Merge_SliceSorts (Run.only "proj" Run.proj) []
            "proj" 100 "proj" (Some 0) (Some 0)
            (Some [File "c.txt" (Some 120)]) _ eq_refl _ eq_refl eq_refl _).
  - reflexivity.
  - intros n Hn. set_unfold. destruct Hn as [->|[->|[]]]; by vm_compute.
Defined.

(** C8 as stated fails: under the root "proj" the search returns
    "proj/b.txt", not "b.txt". *)
Lemma C8_counterexample :
  GlobWithDoubleStar (L:=Run.Go) (Run.only "proj" Run.proj) [] "*.txt" "proj" 1
  = (["proj/b.txt"], true, None)
  ∧ GlobWithDoubleStar (L:=Run.Go) (Run.only "proj" Run.proj) [] "*.txt" "proj" 1
    ≠ (["b.txt"], true, None).
Proof.
  assert (GlobWithDoubleStar (L:=Run.Go) (Run.only "proj" Run.proj) []
            "*.txt" "proj" 1 = (["proj/b.txt"], true, None)) as E
    by (vm_compute; reflexivity).
  split; [exact E|]. rewrite E. discriminate.
Qed.

(** The path of the root itself goes through [SkipHidden] like any other:
    under a root with an ignored segment in its own path nothing is found. *)
Example root_below_ignored_name :
  GlobWithDoubleStar (L:=Run.Go) (Run.only "tmp/proj" Run.proj) []
    "*.txt" "tmp/proj" 1
  = ([], false, None).
Proof. vm_compute. reflexivity. Qed.

(** * Further properties of the code *)

(** ** What the walk records *)

Section Visited.
Context `{L : Libraries}.
Context (pattern searchPath rootPath : string) (gitignore : option GitIgnore).

Local Abbreviation cand := (candidate pattern searchPath rootPath gitignore).
Local Abbreviation qual := (qualifying pattern searchPath rootPath gitignore).

Lemma candidate_Some path e x :
  cand path e = Some x
  ↔ Path x = path
    ∧ shouldSkip path rootPath gitignore = false
    ∧ Match pattern (default path (Rel searchPath path)) = Some true
    ∧ Info e = Some (ModTime x).
Proof.
  unfold candidate. destruct (shouldSkip path rootPath gitignore).
  { split; [done|]. by intros (_ & ? & _). }
  destruct (Match pattern _) as [[]|].
  - destruct (Info e) as [mt|].
    + split.
      * intros [= <-]. done.
      * intros (<- & _ & _ & [= ->]). by destruct x.
    + split; [done|]. by intros (_ & _ & _ & ?).
  - split; [done|]. by intros (_ & _ & ? & _).
  - split; [done|]. by intros (_ & _ & ? & _).
Qed.

Lemma qualifying_Visits path d x :
  x ∈ qual path d
  ↔ ∃ e, Visits rootPath gitignore path d (Path x) e
         ∧ IsDir e = false ∧ cand (Path x) e = Some x.
Proof.
  split.
  - revert path.
    induction d as [name info|name info|name info es IH]
      using DirEntry_tree_ind; intros path; cbn [qualifying].
    + destruct (cand path (File name info)) as [y|] eqn:E; [|by intros ?%elem_of_nil].
      intros ->%list_elem_of_singleton.
      pose proof (proj1 (candidate_Some _ _ _) E) as [<- _].
      exists (File name info). split; [constructor|done].
    + destruct (shouldSkip _ _ _); by intros ?%elem_of_nil.
    + destruct (shouldSkip path rootPath gitignore) eqn:Hs;
        [by intros ?%elem_of_nil|].
      intros Hx. apply list_elem_of_In, in_flat_map in Hx as (e & He & Hx).
      apply list_elem_of_In in He, Hx.
      rewrite Forall_forall in IH.
      destruct (IH e He _ Hx) as (e' & Hv & Hd & Hc).
      exists e'. split; [|done]. by eapply Visits_below.
  - intros (e & Hv & Hd & Hc). remember (Path x) as p eqn:Hp.
    induction Hv as [path d|path name info es e path' e' Hs He Hv IH].
    + destruct d as [name info|]; [|done]. cbn [qualifying].
      rewrite Hc. by apply list_elem_of_singleton.
    + cbn [qualifying]. rewrite Hs.
      apply list_elem_of_In, in_flat_map. exists e.
      split; apply list_elem_of_In; [done|]. by apply IH.
Qed.

Lemma Visits_prefix path d path' e' :
  Visits rootPath gitignore path d path' e' → ∃ rest, path' = path +:+ rest.
Proof.
  induction 1 as [path d|path name info es e path' e' Hs He Hv [rest ->]].
  - exists "". clear. induction path as [|c path IH]; [done|].
    change (String c path = String c (path +:+ "")). by rewrite <- IH.
  - destruct (joinPaths_inv path (Name e)) as (a & -> & [->|Ha]).
    + exists (String Filepath.Separator (Name e) +:+ rest).
      clear. induction path as [|c path IH]; [done|].
      change (String c ((path +:+ String Filepath.Separator (Name e)) +:+ rest)
              = String c (path +:+ String Filepath.Separator (Name e) +:+ rest)).
      by rewrite IH.
    + exists (Name e +:+ rest). rewrite Ha. clear.
      induction a as [|c a IH]; [done|].
      change (String c ((a +:+ String Filepath.Separator (Name e)) +:+ rest)
              = String c ((a +:+ String Filepath.Separator "") +:+ Name e +:+ rest)).
      by rewrite IH.
Qed.

End Visited.

Section Results.
Context `{L : Libraries} `{!SliceSorts}.

Lemma collect_subseteq fs sched pattern searchPath limit :
  (collect fs sched pattern searchPath limit).1
  ⊆ qualifyingOf fs pattern searchPath.
Proof.
  intros x Hx. eapply elem_of_submseteq; [exact Hx|].
  apply collect_submseteq.
Qed.

Lemma cut_subseteq {A : Type} limit (l : list A) : cut limit l ⊆ l.
Proof. unfold cut. destruct (_ && _); [apply subseteq_take|done]. Qed.

Lemma cut_unlimited {A : Type} limit (l : list A) : limit ≤ 0 → cut limit l = l.
Proof. intros Hl. unfold cut. by replace (0 <? limit) with false by lia. Qed.

Lemma cut_length_le {A : Type} limit (l : list A) :
  (List.length (cut limit l) ≤ List.length l)%nat.
Proof. unfold cut. destruct (_ && _); [rewrite length_take; lia|done]. Qed.

(** The paths and the flag of a call. *)
Lemma Glob_paths fs sched pattern searchPath limit paths truncated err :
  GlobWithDoubleStar fs sched pattern searchPath limit = (paths, truncated, err) →
  paths = Path <$> cut limit
            (Slice less (collect fs sched pattern searchPath limit).1)
  ∧ truncated
    = (0 <? limit)
      && (limit <? Z.of_nat
            (List.length (collect fs sched pattern searchPath limit).1)).
Proof.
  intros HG. destruct (Stat fs searchPath) as [d|] eqn:Hd.
  - rewrite (Glob_ranked _ _ _ _ _ d Hd) in HG. by injection HG as <- <- <-.
  - rewrite Glob_eq, Hd in HG. injection HG as <- <- <-.
    rewrite collect_None by done. cbn [fst List.length].
    assert (Slice less [] = []) as ->
      by (apply Permutation_nil_r, Slice_Permutation).
    split; [by destruct limit|].
    destruct (Z.ltb_spec 0 limit), (Z.ltb_spec limit (Z.of_nat 0));
      simpl; try done; lia.
Qed.

Lemma results_pass fs sched pattern searchPath limit paths truncated err p :
  GlobWithDoubleStar fs sched pattern searchPath limit = (paths, truncated, err) →
  p ∈ paths → passes fs pattern searchPath p.
Proof.
  intros HG Hp. apply Glob_paths in HG as [-> _].
  apply list_elem_of_fmap in Hp as (x & -> & Hx).
  apply cut_subseteq in Hx. rewrite Slice_Permutation in Hx.
  apply collect_subseteq in Hx. unfold qualifyingOf in Hx.
  destruct (Stat fs searchPath) as [d|] eqn:Hd; [|by apply elem_of_nil in Hx].
  apply qualifying_Visits in Hx as (e & Hv & He & Hc).
  apply candidate_Some in Hc as (_ & Hs & Hm & Hi).
  exists d, e, (ModTime x). by rewrite Hd.
Qed.

Lemma passes_results fs sched pattern searchPath limit paths truncated err p :
  limit ≤ 0 →
  GlobWithDoubleStar fs sched pattern searchPath limit = (paths, truncated, err) →
  passes fs pattern searchPath p → p ∈ paths.
Proof.
  intros Hl HG (d & e & mt & Hd & Hv & He & Hs & Hm & Hi).
  apply Glob_paths in HG as [-> _]. rewrite cut_unlimited by done.
  apply list_elem_of_fmap. exists {| Path := p; ModTime := mt |}.
  split; [done|]. rewrite Slice_Permutation, collect_exhaustive by auto.
  unfold qualifyingOf. rewrite Hd. apply qualifying_Visits.
  exists e. split; [done|]. split; [done|]. by apply candidate_Some.
Qed.

End Results.

(** X1. Every path a call returns is the path of an entry that the walk
    visits (no directory above it is skipped or unreadable), that is not a
    directory, that [shouldSkip] lets pass, that the pattern matches and
    whose [Info] could be read. With [limit <= 0] these are all returned. *)
Theorem X1_results_are_the_visited_matches `{L : Libraries} `{!SliceSorts}
    fs sched pattern searchPath limit paths truncated err :
  GlobWithDoubleStar fs sched pattern searchPath limit = (paths, truncated, err) →
  (∀ p, p ∈ paths → passes fs pattern searchPath p)
  ∧ (limit ≤ 0 → ∀ p, passes fs pattern searchPath p → p ∈ paths).
Proof.
  intros HG. split.
  - intros p. by eapply results_pass.
  - intros Hl p. by eapply passes_results.
Qed.

Lemma X1_witness :
  passes (L:=Run.Merge) (Run.only "tree" Run.tree) "*/*.txt" "tree"
    "tree/d2/y.txt"
  ∧ "tree/d1/x.txt"
    ∈ ["tree/d3/z.txt"; "tree/d2/y.txt"; "tree/d1/x.txt"].
Proof.
  split.
  - refine (proj1 (@X1_results_are_the_visited_matches Run.Merge
              Merge_SliceSorts (Run.only "tree" Run.tree) [0; 0]%nat
              "*/*.txt" "tree" 2 ["tree/d3/z.txt"; "tree/d2/y.txt"] true
              None _) _ _).
    + vm_compute. reflexivity.
    + apply list_elem_of_In. simpl. auto.
  - refine (proj2 (@X1_results_are_the_visited_matches Run.Merge
              Merge_SliceSorts (Run.only "tree" Run.tree) []
              "*/*.txt" "tree" 0
              ["tree/d3/z.txt"; "tree/d2/y.txt"; "tree/d1/x.txt"] false None _)
              _ _ _).
    + vm_compute. reflexivity.
    + lia.
    + exists Run.tree, (File "x.txt" (Some 1)), 1.
      split; [reflexivity|]. split.
      * eapply (Visits_below _ _ _ _ _ _
                  (Dir "d1" (Some 0) (Some [File "x.txt" (Some 1)])));
          [reflexivity|apply list_elem_of_In; simpl; auto|].
        eapply (Visits_below _ _ _ _ _ _ (File "x.txt" (Some 1)));
          [reflexivity|apply list_elem_of_In; simpl; auto|].
        apply Visits_here.
      * repeat split; reflexivity.
Defined.

(** X2. Every returned path is the path the walk reports: the search
    root, with separators at its end removed, followed by what leads to the
    entry. No relative path is returned. *)
Theorem X2_results_start_with_the_root `{L : Libraries} `{!SliceSorts}
    fs sched pattern searchPath limit paths truncated err p :
  GlobWithDoubleStar fs sched pattern searchPath limit = (paths, truncated, err) →
  p ∈ paths →
  ∃ rest, p = Fastwalk.cleanRootPath searchPath +:+ rest.
Proof.
  intros HG Hp.
  destruct (results_pass _ _ _ _ _ _ _ _ _ HG Hp)
    as (d & e & mt & _ & Hv & _).
  by eapply Visits_prefix.
Qed.

Lemma X2_witness :
  ∃ rest, "proj/b.txt" = Fastwalk.cleanRootPath "proj" +:+ rest.
Proof.
  refine (@X2_results_start_with_the_root Run.Merge Merge_SliceSorts
            (Run.only "proj" Run.proj) [] "*.txt" "proj" 1
            ["proj/b.txt"] true None "proj/b.txt" _ _).
  - vm_compute. reflexivity.
  - apply list_elem_of_In. simpl. auto.
Defined.

(** X3. The path of the root goes through [shouldSkip] like that of any
    directory: when it is skipped (a root whose last segment starts with a
    dot, ".." among them, or with an ignored name such as "tmp" or "build"
    anywhere in its path) the call returns nothing, and no error. *)
Theorem X3_skipped_root_returns_nothing `{L : Libraries} `{!SliceSorts}
    fs sched pattern searchPath limit name info entries :
  let walker := NewFastGlobWalker fs searchPath in
  Stat fs searchPath = Some (Dir name info entries) →
  shouldSkip (Fastwalk.cleanRootPath searchPath) (rootPath walker)
    (gitignore walker) = true →
  GlobWithDoubleStar fs sched pattern searchPath limit = ([], false, None).
Proof.
  intros walker Hd Hs.
  assert ((collect fs sched pattern searchPath limit).1 = []) as Hc.
  { apply list_nil_subseteq. etrans; [apply collect_subseteq|].
    unfold qualifyingOf. rewrite Hd. cbn [qualifying]. fold walker.
    by rewrite Hs. }
  rewrite (Glob_ranked _ _ _ _ _ _ Hd). cbn zeta. rewrite Hc.
  assert (Slice less [] = []) as ->
    by (apply Permutation_nil_r, Slice_Permutation).
  cbn [List.length].
  assert (cut limit (@nil FileInfo) = []) as ->
    by (unfold cut; destruct (_ && _); [apply take_nil|done]).
  assert ((0 <? limit) && (limit <? Z.of_nat 0) = false) as ->
    by (destruct (Z.ltb_spec 0 limit), (Z.ltb_spec limit (Z.of_nat 0));
        simpl; lia).
  done.
Qed.

Lemma X3_witness :
  GlobWithDoubleStar (L:=Run.Merge) (Run.only "src/.." Run.proj) []
    "*.txt" "src/.." 0
  = ([], false, None).
Proof.
  refine (@X3_skipped_root_returns_nothing Run.Merge Merge_SliceSorts
            (Run.only "src/.." Run.proj) [] "*.txt" "src/.." 0 _ _ _ eq_refl _).
  vm_compute. reflexivity.
Defined.

(** X4. [truncated] tells exactly whether something was cut off: when it
    is true, [limit] is positive and exactly [limit] paths are returned;
    when it is false, the paths of all recorded candidates are returned,
    also with a positive limit. *)
Theorem X4_truncated_means_cut `{L : Libraries} `{!SliceSorts}
    fs sched pattern searchPath limit paths truncated err :
  GlobWithDoubleStar fs sched pattern searchPath limit = (paths, truncated, err) →
  (truncated = true → 0 < limit ∧ Z.of_nat (List.length paths) = limit)
  ∧ (truncated = false →
       paths ≡ₚ Path <$> (collect fs sched pattern searchPath limit).1).
Proof.
  intros HG. apply Glob_paths in HG as [-> ->].
  set (c := (collect fs sched pattern searchPath limit).1).
  pose proof (Slice_Permutation less c) as HP.
  unfold cut. rewrite (Permutation_length HP).
  destruct (Z.ltb_spec 0 limit), (Z.ltb_spec limit (Z.of_nat (List.length c)));
    cbn [andb]; (split; [intros Ht|intros Hf]); try done;
    try (by rewrite HP).
  split; [done|]. rewrite length_fmap, length_take, (Permutation_length HP). lia.
Qed.

Lemma X4_witness :
  0 < 1 ∧ Z.of_nat (List.length ["proj/b.txt"]) = 1.
Proof.
  refine (proj1 (@X4_truncated_means_cut Run.Merge Merge_SliceSorts
            (Run.only "proj" Run.proj) [] "*.txt" "proj" 1
            ["proj/b.txt"] true None _) eq_refl).
  vm_compute. reflexivity.
Defined.

(** X5. When the walk is not cut short ([limit <= 0], or no more than
    [2 * limit] qualifying candidates in the whole tree, with [limit * 2]
    not wrapping around) the answer is exact: the qualifying candidates of
    the tree fall into those returned and those dropped, no dropped one is
    newer than a returned one, and with a positive limit nothing is dropped
    unless [limit] are returned. *)
Theorem X5_exact_when_not_cut_short `{L : Libraries} `{!SliceSorts}
    fs sched pattern searchPath limit paths truncated err :
  GlobWithDoubleStar fs sched pattern searchPath limit = (paths, truncated, err) →
  limit ≤ 0
  ∨ (limit * 2 < 2 ^ 63
     ∧ Z.of_nat (List.length (qualifyingOf fs pattern searchPath)) ≤ limit * 2) →
  ∃ kept dropped : list FileInfo,
    kept ++ dropped ≡ₚ qualifyingOf fs pattern searchPath
    ∧ paths = Path <$> kept
    ∧ (∀ x y, x ∈ kept → y ∈ dropped → ModTime y ≤ ModTime x)
    ∧ (dropped ≠ [] → Z.of_nat (List.length kept) = limit).
Proof.
  intros HG Hc. apply Glob_paths in HG as [-> _].
  pose proof (collect_exhaustive fs sched pattern searchPath limit Hc) as HQ.
  set (c := (collect fs sched pattern searchPath limit).1) in *.
  pose proof (Slice_Permutation less c) as HP.
  pose proof (Slice_newestFirst c) as HS.
  unfold cut.
  destruct (Z.ltb_spec 0 limit), (Z.ltb_spec limit
    (Z.of_nat (List.length (Slice less c)))); cbn [andb].
  2-4: exists (Slice less c), []; rewrite app_nil_r; split; [by rewrite HP|];
       split; [done|]; split; [by intros x y _ ?%elem_of_nil|done].
  exists (take (Z.to_nat limit) (Slice less c)),
         (drop (Z.to_nat limit) (Slice less c)).
  rewrite take_drop. split; [by rewrite HP|]. split; [done|]. split.
  - rewrite <- (take_drop (Z.to_nat limit) (Slice less c)) in HS.
    apply StronglySorted_app in HS as (HR & _ & _). intros x y Hx Hy.
    by apply HR.
  - intros _. rewrite length_take. lia.
Qed.

Lemma X5_witness :
  ∃ kept dropped : list FileInfo,
    kept ++ dropped
    ≡ₚ qualifyingOf (L:=Run.Merge) (Run.only "proj" Run.proj) "*.txt" "proj"
    ∧ ["proj/b.txt"] = Path <$> kept
    ∧ (∀ x y, x ∈ kept → y ∈ dropped → ModTime y ≤ ModTime x)
    ∧ (dropped ≠ [] → Z.of_nat (List.length kept) = 1).
Proof.
  refine (@X5_exact_when_not_cut_short Run.Merge Merge_SliceSorts
            (Run.only "proj" Run.proj) [] "*.txt" "proj" 1
            ["proj/b.txt"] true None _ _).
  - vm_compute. reflexivity.
  - right. split; [lia|]. vm_compute. discriminate.
Defined.

(** X6. [limit * 2] is computed on 64 bits. For a limit from [2 ^ 62] on
    the product wraps around to a negative number, and the test
    [len(matches) >= limit*2] holds with every candidate: every listing
    ends with its first candidate. The directories listed before it are
    read, those after it are not. The candidates recorded are, up to their
    order, these first candidates, and only their paths are returned; when
    they are no more than [limit], all of them are, and [truncated] is
    false. *)
Theorem X6_limit_overflow `{L : Libraries} `{!SliceSorts}
    fs sched pattern searchPath limit paths truncated :
  2 ^ 62 ≤ limit < 2 ^ 63 →
  GlobWithDoubleStar fs sched pattern searchPath limit
  = (paths, truncated, None) →
  (collect fs sched pattern searchPath limit).1
  ≡ₚ firstsOf fs pattern searchPath
  ∧ paths ⊆ Path <$> firstsOf fs pattern searchPath
  ∧ (Z.of_nat (List.length (firstsOf fs pattern searchPath)) ≤ limit →
       paths ≡ₚ Path <$> firstsOf fs pattern searchPath ∧ truncated = false).
Proof.
  intros Hl HG. apply Glob_paths in HG as [-> ->].
  assert ((collect fs sched pattern searchPath limit).1
          ≡ₚ firstsOf fs pattern searchPath) as Hc.
  { apply collect_firsts; [lia|]. unfold int_wrap.
    replace (limit * 2 + 2 ^ 63) with (limit * 2 - 2 ^ 63 + 1 * 2 ^ 64) by lia.
    rewrite Z.mod_add by lia. rewrite Z.mod_small by lia. lia. }
  split; [done|]. split.
  - intros p (x & -> & Hx)%list_elem_of_fmap.
    apply list_elem_of_fmap. exists x. split; [done|].
    apply cut_subseteq in Hx. by rewrite Slice_Permutation, Hc in Hx.
  - intros Hn. rewrite (Permutation_length Hc). split.
    + unfold cut.
      rewrite (Permutation_length (Slice_Permutation less _)),
        (Permutation_length Hc).
      replace (limit <? _) with false by lia. rewrite andb_false_r.
      by rewrite Slice_Permutation, Hc.
    + replace (limit <? _) with false by lia. apply andb_false_r.
Qed.

Lemma X6_witness :
  ["two/db/b1.txt"; "two/da/a1.txt"]
  ≡ₚ Path <$> firstsOf (L:=Run.Merge) (Run.only "two" Run.two) "*/*.txt" "two"
  ∧ false = false.
Proof.
  refine (proj2 (proj2 (@X6_limit_overflow Run.Merge Merge_SliceSorts
            (Run.only "two" Run.two) [] "*/*.txt" "two" (2 ^ 62)
            ["two/db/b1.txt"; "two/da/a1.txt"] false _ _)) _).
  - lia.
  - vm_compute. reflexivity.
  - vm_compute. discriminate.
Defined.

(** X14. Whatever the limit, a run records qualifying candidates of the
    tree only, each once, and among them the first candidate of every
    listing it reads: [SkipAll] ends a listing and not the walk. *)
Theorem X14_between_firsts_and_qualifying `{L : Libraries}
    fs sched pattern searchPath limit :
  firstsOf fs pattern searchPath
  ⊆+ (collect fs sched pattern searchPath limit).1
  ∧ (collect fs sched pattern searchPath limit).1
    ⊆+ qualifyingOf fs pattern searchPath.
Proof.
  split; [apply collect_firsts|apply collect_submseteq].
Qed.

(** ** [SkipHidden] on the path of an entry *)

Lemma ignored_empty : commonIgnoredDirs !! "" ≠ Some true.
Proof. vm_compute. discriminate. Qed.

Lemma conventionallyIgnored_entry a name :
  Filepath.hasSeparator name = false →
  conventionallyIgnored (a +:+ String Filepath.Separator name)
  ↔ conventionallyIgnored a ∨ ignoredName name.
Proof.
  intros Hs. unfold conventionallyIgnored, ignoredName.
  rewrite Split_app, (Split_name name) by done. split.
  - intros (part & [Hin| ->%list_elem_of_singleton]%elem_of_app & Hp); eauto.
  - intros [(part & Hin & Hp)|Hp].
    + exists part. split; [|done]. apply elem_of_app. by left.
    + exists name. split; [|done]. apply elem_of_app. right.
      by apply list_elem_of_singleton.
Qed.

(** X7. Whether an entry is skipped as hidden or ignored depends on its
    name and on the segments of its directory only: the path of the entry
    [name] of the directory [dir] is skipped exactly when the name starts
    with a dot (and is not "."), or the name is an ignored one, or [dir]
    has an ignored segment. A hidden directory above does not count. *)
Theorem X7_SkipHidden_of_an_entry dir name :
  name ≠ "" → Filepath.hasSeparator name = false →
  SkipHidden (Fastwalk.joinPaths dir name) = true
  ↔ hiddenName name ∨ ignoredName name ∨ conventionallyIgnored dir.
Proof.
  intros Hn Hs. rewrite SkipHidden_spec.
  destruct (joinPaths_inv dir name) as (a & -> & Ha).
  unfold hidden. rewrite Base_app by done. fold (hiddenName name).
  rewrite conventionallyIgnored_entry by done.
  assert (conventionallyIgnored a ↔ conventionallyIgnored dir) as ->.
  { destruct Ha as [->| ->]; [done|].
    rewrite conventionallyIgnored_entry by done.
    split; [by left|]. intros [?|Hi]; [done|]. by apply ignored_empty in Hi. }
  tauto.
Qed.

Lemma X7_witness :
  SkipHidden (Fastwalk.joinPaths "a/vendor/b" "main.go") = true.
Proof.
  refine (proj2 (X7_SkipHidden_of_an_entry "a/vendor/b" "main.go" _ eq_refl) _).
  - discriminate.
  - right. right. exists "vendor". split.
    + apply list_elem_of_In. vm_compute. auto.
    + reflexivity.
Defined.

(** ** Strings *)

Lemma string_app_assoc (a b c : string) : (a +:+ b) +:+ c = a +:+ b +:+ c.
Proof.
  induction a as [|x a IH]; [done|].
  change (String x ((a +:+ b) +:+ c) = String x (a +:+ b +:+ c)).
  by rewrite IH.
Qed.

Lemma string_app_nil_r (a : string) : a +:+ "" = a.
Proof.
  induction a as [|x a IH]; [done|].
  change (String x (a +:+ "") = String x a). by rewrite IH.
Qed.

Lemma string_app_length (a b : string) :
  String.length (a +:+ b) = (String.length a + String.length b)%nat.
Proof.
  induction a as [|x a IH]; [done|].
  change (S (String.length (a +:+ b)) = S (String.length a + String.length b)).
  by rewrite IH.
Qed.

Lemma prefix_app_iff (old s : string) :
  String.prefix old s = true ↔ ∃ rest, s = old +:+ rest.
Proof.
  revert s. induction old as [|x old IH]; intros s.
  - split; [intros _; by exists s|intros _; by destruct s].
  - destruct s as [|y s]; [split; [done|by intros [? ?]]|].
    cbn [String.prefix].
    destruct (Ascii.ascii_dec x y) as [->|Hxy].
    + rewrite IH. split.
      * intros [rest ->]. by exists rest.
      * intros [rest [= ->]]. by exists rest.
    + split; [done|]. intros [rest [= ? ?]]. done.
Qed.

(** ** [PrettyPath] *)

Lemma replaceFrom_skip a rest old new :
  Strings.replaceFrom (a +:+ rest) old new (String.length a)
  = Strings.replaceFrom rest old new 0.
Proof.
  induction a as [|x a IH]; [done|].
  change (Strings.replaceFrom (a +:+ rest) old new (String.length a)
          = Strings.replaceFrom rest old new 0).
  apply IH.
Qed.

Lemma replaceFrom_occurrence x old rest new :
  Strings.replaceFrom (String x old +:+ rest) (String x old) new 0
  = new +:+ Strings.replaceFrom rest (String x old) new 0.
Proof.
  change (String x old +:+ rest) with (String x (old +:+ rest)).
  cbn [Strings.replaceFrom].
  assert (String.prefix (String x old) (String x (old +:+ rest)) = true) as ->
    by (apply prefix_app_iff; by exists rest).
  f_equal. cbn [String.length]. rewrite Nat.sub_succ, Nat.sub_0_r.
  apply replaceFrom_skip.
Qed.

Lemma occurs_cons old c s : occurs old s → occurs old (String c s).
Proof. intros (a & b & ->). by exists (String c a), b. Qed.

Lemma replaceFrom_absent s old new :
  ¬ occurs old s → Strings.replaceFrom s old new 0 = s.
Proof.
  induction s as [|c s IH]; intros Hn; [done|].
  cbn [Strings.replaceFrom].
  destruct (String.prefix old (String c s)) eqn:Hp.
  - apply prefix_app_iff in Hp as [rest Hp]. destruct Hn.
    exists "", rest. by rewrite Hp.
  - f_equal. apply IH. intros Ho. by apply Hn, occurs_cons.
Qed.

Lemma replaceFrom_length s old skip :
  (String.length (Strings.replaceFrom s old "~" skip) ≤ String.length s)%nat.
Proof.
  revert skip. induction s as [|c s IH]; intros skip; [done|].
  cbn [Strings.replaceFrom String.length]. destruct skip as [|k].
  - destruct (String.prefix old (String c s)).
    + change (S (String.length (Strings.replaceFrom s old "~"
                                  (String.length old - 1)))
              ≤ S (String.length s))%nat.
      apply le_n_S, IH.
    + cbn [String.length]. apply le_n_S, IH.
  - etrans; [apply IH|]. lia.
Qed.

Lemma PrettyPath_replaceFrom HOME path :
  HOME ≠ "" → HOME ≠ "~" →
  PrettyPath HOME path = Strings.replaceFrom path HOME "~" 0.
Proof.
  intros H1 H2. unfold PrettyPath, UserHomeDir, Strings.ReplaceAll.
  destruct (String.eqb_spec HOME ""); [done|].
  destruct (String.eqb_spec HOME "~"); [done|]. by destruct HOME.
Qed.

Lemma PrettyPath_tilde path : PrettyPath "~" path = path.
Proof. reflexivity. Qed.

(** X8. [PrettyPath] returns the path as it is when the home directory
    cannot be determined ($HOME is empty) and when it does not occur in
    the path. *)
Theorem X8_PrettyPath_unchanged HOME path :
  HOME = "" ∨ ¬ occurs HOME path → PrettyPath HOME path = path.
Proof.
  intros [->|Hn]; [done|].
  destruct (String.eqb_spec HOME ""); [by subst|].
  destruct (String.eqb_spec HOME "~"); [subst; apply PrettyPath_tilde|].
  rewrite PrettyPath_replaceFrom by done. by apply replaceFrom_absent.
Qed.

Lemma X8_witness :
  PrettyPath "" "/home/u/src" = "/home/u/src"
  ∧ PrettyPath "/home/u" "/srv/data" = "/srv/data".
Proof.
  split.
  - exact (X8_PrettyPath_unchanged "" "/home/u/src" (or_introl eq_refl)).
  - refine (X8_PrettyPath_unchanged "/home/u" "/srv/data" (or_intror _)).
    intros (a & b & E).
    do 9 (destruct a as [|? a]; cbn in E; [discriminate E|injection E as _ E]).
    destruct a; discriminate E.
Defined.

(** X9. With a home directory, [PrettyPath] goes through the path from
    the left: where the home directory starts it writes "~" and goes on
    behind it, elsewhere it keeps the byte. So the home directory is
    replaced wherever it occurs, not only at the start of the path. *)
Theorem X9_PrettyPath_replaces_every_occurrence HOME :
  HOME ≠ "" →
  (∀ rest, PrettyPath HOME (HOME +:+ rest) = "~" +:+ PrettyPath HOME rest)
  ∧ (∀ c s, String.prefix HOME (String c s) = false →
            PrettyPath HOME (String c s) = String c (PrettyPath HOME s)).
Proof.
  intros Hn.
  destruct (String.eqb_spec HOME "~") as [->|Ht].
  { split; intros; by rewrite !PrettyPath_tilde. }
  split.
  - intros rest. rewrite !PrettyPath_replaceFrom by done.
    destruct HOME as [|x old]; [done|]. apply replaceFrom_occurrence.
  - intros c s Hp. rewrite !PrettyPath_replaceFrom by done.
    cbn [Strings.replaceFrom]. by rewrite Hp.
Qed.

Lemma X9_witness :
  PrettyPath "/home/u" ("/home/u" +:+ "/src") = "~" +:+ PrettyPath "/home/u" "/src"
  ∧ PrettyPath "/home/u" "/mnt/home/u" = String "/" (PrettyPath "/home/u" "mnt/home/u").
Proof.
  assert ("/home/u" ≠ "") as Hn by discriminate.
  split.
  - exact (proj1 (X9_PrettyPath_replaces_every_occurrence "/home/u" Hn) "/src").
  - exact (proj2 (X9_PrettyPath_replaces_every_occurrence "/home/u" Hn)
             "/"%char "mnt/home/u" eq_refl).
Defined.

(** X10. [PrettyPath] never makes a path longer. *)
Theorem X10_PrettyPath_not_longer HOME path :
  (String.length (PrettyPath HOME path) ≤ String.length path)%nat.
Proof.
  destruct (String.eqb_spec HOME "") as [->|Hn]; [done|].
  destruct (String.eqb_spec HOME "~") as [->|Ht];
    [by rewrite PrettyPath_tilde|].
  rewrite PrettyPath_replaceFrom by done. apply replaceFrom_length.
Qed.

(** ** [DirTrim] *)

Lemma length_Split s :
  List.length (Strings.Split s Filepath.Separator) = S (separators s).
Proof.
  induction s as [|c s IH]; [done|]. cbn [Strings.Split separators].
  unfold Filepath.IsPathSeparator.
  destruct (Ascii.eqb c Filepath.Separator); cbn [List.length].
  - by rewrite IH.
  - pose proof (Split_nonempty s Filepath.Separator).
    destruct (Strings.Split s Filepath.Separator); [done|].
    cbn [List.length] in *. done.
Qed.

Lemma initials_snoc l d :
  initials (l ++ [d])
  = match d with
    | EmptyString => None
    | String b _ =>
        (λ s, s +:+ stringOfByte b +:+ String Filepath.Separator "")
          <$> initials l
    end.
Proof.
  induction l as [|x l IH]; cbn [app initials].
  - destruct d as [|b d]; [done|].
    cbn [fmap option_fmap option_map]. by rewrite string_app_nil_r.
  - destruct x as [|bx x]; [by destruct d|]. rewrite IH.
    destruct d as [|b d]; [done|].
    destruct (initials l) as [s|]; [|done].
    cbn [fmap option_fmap option_map]. by rewrite !string_app_assoc.
Qed.

Section DirTrim.
Context `{L : Libraries}.

Lemma dirTrimLoop_initials dirs m k j out :
  List.length dirs = (m + k + 1)%nat → (j < k)%nat →
  dirTrimLoop dirs (Z.of_nat k) (m + j) out
  = match initials (take j (drop (S m) dirs)) with
    | None => None
    | Some ini =>
        Some ((if (m =? 0)%nat then "" else ".../") +:+ ini +:+ out)
    end.
Proof.
  intros Hn. revert out. induction j as [|j IH]; intros out Hj.
  - rewrite Nat.add_0_r. cbn [take initials]. destruct m as [|m]; [done|].
    cbn [dirTrimLoop].
    destruct (lookup_lt_is_Some_2 dirs (S m)) as [d ->]; [lia|].
    rewrite (proj2 (Z.eqb_neq _ _)), (proj2 (Z.leb_gt _ _)) by lia.
    done.
  - replace (m + S j)%nat with (S (m + j)) by lia. cbn [dirTrimLoop].
    destruct (lookup_lt_is_Some_2 dirs (S (m + j))) as [d Hd]; [lia|].
    rewrite Hd.
    rewrite (proj2 (Z.eqb_neq _ _)), (proj2 (Z.leb_le _ _)) by lia.
    rewrite (take_S_r _ _ d) by (rewrite lookup_drop; by rewrite Nat.add_succ_l).
    rewrite initials_snoc. destruct d as [|b d]; [done|].
    rewrite IH by lia.
    destruct (initials (take j (drop (S m) dirs))) as [ini|]; [|done].
    cbn [fmap option_fmap option_map]. f_equal.
    by rewrite !string_app_assoc.
Qed.

Lemma DirTrim_trimmed pwd lim :
  0 < lim ≤ Z.of_nat (separators pwd) →
  let dirs := Strings.Split pwd Filepath.Separator in
  let k := Z.to_nat lim in
  let m := (separators pwd - k)%nat in
  DirTrim pwd lim
  = match initials (take (k - 1) (drop (S m) dirs)) with
    | None => None
    | Some ini =>
        Some (Join "~" ((if (m =? 0)%nat then "" else ".../")
                        +:+ ini +:+ default "" (last dirs)))
    end.
Proof.
  intros Hl dirs k m. unfold DirTrim. fold dirs.
  pose proof (length_Split pwd) as Hn. fold dirs in Hn. rewrite Hn.
  rewrite (proj2 (Z.ltb_ge _ _)), (proj2 (Z.leb_gt _ _)) by lia.
  cbn [orb].
  replace (S (separators pwd) - 1)%nat with (S (m + (k - 1))) by lia.
  cbn [dirTrimLoop]. rewrite last_lookup, Hn. cbn [pred].
  destruct (lookup_lt_is_Some_2 dirs (S (m + (k - 1)))) as [d Hd]; [lia|].
  replace (dirs !! separators pwd) with (Some d)
    by (rewrite <- Hd; f_equal; lia).
  rewrite Hd. cbn [default from_option id].
  rewrite (proj2 (Z.eqb_eq _ _)) by lia.
  replace lim with (Z.of_nat k) by lia.
  rewrite (dirTrimLoop_initials dirs m k (k - 1)) by lia.
  by destruct (initials _).
Qed.

End DirTrim.

(** X11. [DirTrim] returns the path as it is when [lim] is not positive
    and when the path has fewer than [lim] separators. *)
Theorem X11_DirTrim_untouched `{L : Libraries} pwd lim :
  lim ≤ 0 ∨ Z.of_nat (separators pwd) < lim → DirTrim pwd lim = Some pwd.
Proof.
  intros Hl. unfold DirTrim. rewrite length_Split.
  destruct Hl as [Hl|Hl].
  - rewrite (proj2 (Z.leb_le lim 0)) by lia. by rewrite orb_true_r.
  - by rewrite (proj2 (Z.ltb_lt _ _)) by lia.
Qed.

Lemma X11_witness :
  DirTrim (L:=Run.Go) "/home/user" 0 = Some "/home/user"
  ∧ DirTrim (L:=Run.Go) "/home/user" 3 = Some "/home/user".
Proof.
  split.
  - refine (@X11_DirTrim_untouched Run.Go "/home/user" 0 (or_introl _)). lia.
  - refine (@X11_DirTrim_untouched Run.Go "/home/user" 3 (or_intror _)).
    vm_compute. reflexivity.
Defined.

(** X12. With [0 < lim] and at least [lim] separators in the path,
    [DirTrim] looks at the segments behind the first separator only. It
    keeps the last segment, puts before it the first bytes of the [lim - 1]
    segments before that, each followed by a separator, and before those
    ".../" when segments are left over; the result is joined to "~". When
    one of the [lim - 1] segments is empty (two separators in a row) the
    index of its first byte is out of range and the call panics. *)
Theorem X12_DirTrim_trimmed `{L : Libraries} pwd lim :
  0 < lim ≤ Z.of_nat (separators pwd) →
  let dirs := Strings.Split pwd Filepath.Separator in
  let k := Z.to_nat lim in
  let m := (separators pwd - k)%nat in
  DirTrim pwd lim
  = match initials (take (k - 1) (drop (S m) dirs)) with
    | None => None
    | Some ini =>
        Some (Join "~" ((if (m =? 0)%nat then "" else ".../")
                        +:+ ini +:+ default "" (last dirs)))
    end.
Proof. apply DirTrim_trimmed. Qed.

Lemma X12_witness :
  DirTrim (L:=Run.Go) "/home/user/projects/crush" 2 = Some "~/.../p/crush"
  ∧ DirTrim (L:=Run.Go) "/home/user//crush" 2 = None.
Proof.
  split.
  - refine (@X12_DirTrim_trimmed Run.Go "/home/user/projects/crush" 2 _).
    vm_compute. split; [reflexivity | discriminate].
  - refine (@X12_DirTrim_trimmed Run.Go "/home/user//crush" 2 _).
    vm_compute. split; [reflexivity | discriminate].
Defined.

(** X13. What stands before the first separator of the path never shows
    in a trimmed result, and is not announced by "..." either: two paths
    that differ there only are trimmed to the same. *)
Theorem X13_DirTrim_ignores_the_first_segment `{L : Libraries} a b rest lim :
  Filepath.hasSeparator a = false → Filepath.hasSeparator b = false →
  0 < lim ≤ Z.of_nat (S (separators rest)) →
  DirTrim (a +:+ String Filepath.Separator rest) lim
  = DirTrim (b +:+ String Filepath.Separator rest) lim.
Proof.
  intros Ha Hb Hl.
  assert (∀ c, Filepath.hasSeparator c = false →
            separators (c +:+ String Filepath.Separator rest)
            = S (separators rest)) as Hsep.
  { intros c Hc. pose proof (length_Split (c +:+ String Filepath.Separator rest)) as E.
    rewrite Split_app, (Split_name c), length_app, length_Split in E by done.
    cbn [List.length] in E. lia. }
  rewrite !DirTrim_trimmed by (rewrite Hsep; done). cbn zeta.
  rewrite !Hsep, !Split_app, (Split_name a), (Split_name b) by done.
  cbn [app drop].
  pose proof (Split_nonempty rest Filepath.Separator) as Hne.
  destruct (Strings.Split rest Filepath.Separator) as [|x l]; [done|].
  by rewrite !last_cons_cons.
Qed.

Lemma X13_witness :
  DirTrim (L:=Run.Go) ("proj" +:+ String Filepath.Separator "src/x") 2
  = DirTrim (L:=Run.Go) ("" +:+ String Filepath.Separator "src/x") 2.
Proof.
  refine (@X13_DirTrim_ignores_the_first_segment Run.Go "proj" "" "src/x" 2
            eq_refl eq_refl _).
  vm_compute. split; [reflexivity | discriminate].
Defined.
